(** * Savings projection of the Etihad savings dashboard (app.py)

    The dashboard script computes, from the sidebar inputs, a cumulative
    savings series (function [calculate_savings]) and a payback year (a
    second loop at module level).  Both are embedded here over Python's
    [float], that is IEEE-754 binary64 with round-to-nearest-even, taken
    from the Standard Library's executable specification [SpecFloat]. *)

From Stdlib Require Import ZArith List Bool String Lia.
From Stdlib Require Import SpecFloat DecimalString DecimalZ DecimalPos.
Import ListNotations.
Local Open Scope Z_scope.

(** ** Python floats *)

Module PyFloat.

Definition prec : Z := 53.
Definition emax : Z := 1024.

Definition float : Type := spec_float.

Definition fadd : float -> float -> float := SFadd prec emax.
Definition fsub : float -> float -> float := SFsub prec emax.
Definition fmul : float -> float -> float := SFmul prec emax.
Definition fdiv : float -> float -> float := SFdiv prec emax.
Definition fneg : float -> float := SFopp.

(** [x == y], [x < y], [x <= y]; all three are [false] on a NaN. *)
Definition feqb : float -> float -> bool := SFeqb.
Definition fltb : float -> float -> bool := SFltb.
Definition fleb : float -> float -> bool := SFleb.

(** [float(n)] for a Python [int]: the nearest double, ties to even. *)
Definition of_int (n : Z) : float := binary_normalize prec emax n 0 false.

(** The value of a decimal literal [n / 10^k], as the parser rounds it:
    literals such as [2.25] or [0.1] are read as the nearest double. *)
Definition of_decimal (n : Z) (k : positive) : float :=
  fdiv (of_int n) (of_int (Z.pow_pos 10 k)).

Definition zero : float := S754_zero false.

Definition is_nan (x : float) : bool :=
  match x with S754_nan => true | _ => false end.

Definition is_finite (x : float) : bool :=
  match x with S754_zero _ | S754_finite _ _ _ => true | _ => false end.

Definition is_zero (x : float) : bool :=
  match x with S754_zero _ => true | _ => false end.

(** A well-formed double: the mantissa and exponent of a finite value are
    the canonical ones of binary64. *)
Definition wf (x : float) : bool := valid_binary prec emax x.

(** [x / y] on floats raises [ZeroDivisionError] when [y == 0]. *)
Definition truediv (x y : float) : option float :=
  if is_zero y then None else Some (fdiv x y).

(** Two floats denote the same number: structurally equal, the two zeros
    identified.  Unlike [feqb] this is reflexive on NaN. *)
Definition same_value (x y : float) : Prop :=
  match x, y with
  | S754_zero _, S754_zero _ => True
  | _, _ => x = y
  end.

(** *** The order of doubles

    Every finite double is an integer multiple of [2^-1074]; [ival] and
    [rank] give that integer, and [huge] stands for the two infinities.
    They serve to state what rounding does and are never executed. *)

Abbreviation fexp := (SpecFloat.fexp prec emax).
Abbreviation canonical := (canonical_mantissa prec emax).

Definition ival (m : positive) (e : Z) : Z := Zpos m * 2 ^ (e + 1074).

Definition huge : Z := 2 ^ 2098.

Definition rank (x : float) : Z :=
  match x with
  | S754_zero _ => 0
  | S754_infinity s => cond_Zopp s huge
  | S754_nan => 0
  | S754_finite s m e => cond_Zopp s (ival m e)
  end.

(** A well-formed double that is not a NaN. *)
Definition good (x : float) : Prop := wf x = true /\ is_nan x = false.

(** [r] is a rounding of the exact value [S] (in units of [2^-1074]): no
    double lies strictly between the two. *)
Definition faithful (S : Z) (r : float) : Prop :=
  good r /\
  forall z, good z ->
    (S <= rank z -> rank r <= rank z) /\ (rank z <= S -> rank z <= rank r).

(** No bit was lost by the shifts recorded in [r]. *)
Definition exact_rec (r : shr_record) : bool := negb (shr_r r) && negb (shr_s r).

(** The last step of [binary_round_aux]: the rounded mantissa [m3] at
    exponent [e2] is renormalised and checked for overflow. *)
Definition round_result (s : bool) (m3 e2 : Z) : float :=
  let n2 := Z.max (fexp (Zdigits2 m3 + e2) - e2) 0 in
  match m3 / 2 ^ n2 with
  | Z0 => S754_zero s
  | Zpos p => if e2 + n2 <=? 971 then S754_finite s p (e2 + n2) else S754_infinity s
  | Zneg _ => S754_nan
  end.

(** The spacing of the doubles around [M * 2^ez]. *)
Definition grid (M : positive) (ez : Z) : Z :=
  2 ^ (fexp (Zpos (digits2_pos M) + ez) + 1074).

(** The possible results of a rounding with sign [s] whose exponent is at
    most [emaxr]. *)
Inductive rounded (s : bool) (emaxr : Z) : float -> Prop :=
  | rounded_zero : rounded s emaxr (S754_zero s)
  | rounded_inf : 971 < emaxr -> rounded s emaxr (S754_infinity s)
  | rounded_finite m e :
      bounded prec emax m e = true -> e <= emaxr ->
      rounded s emaxr (S754_finite s m e).

Ltac rank_cmp :=
  cbn [cond_Zopp]; apply f_equal; symmetry;
  first [ apply Z.compare_eq_iff; lia
        | apply Z.compare_lt_iff; lia
        | apply Z.compare_gt_iff; lia ].

End PyFloat.

Import PyFloat.

(** ** The error monad of the script (an uncaught exception aborts the run) *)

Definition bind {A B : Type} (m : option A) (k : A -> option B) : option B :=
  match m with
  | Some a => k a
  | None => None
  end.

Notation "x <- m ;; k" := (bind m (fun x => k))
  (at level 61, m at next level, right associativity).

(** ** Built-ins used by the script *)

(** [range(lo, hi)]. *)
Definition py_range (lo hi : Z) : list Z :=
  map (fun i => lo + Z.of_nat i) (seq 0 (Z.to_nat (hi - lo))).

(** [sum(xs)]: starts from the int [0] and adds the items from left to
    right; the first addition converts the [0] to [0.0].  This is the sum
    of CPython up to 3.11.  CPython 3.12 and later carry a compensation
    term along a float sum, which can change the last bit of an inexact
    sum; the two agree wherever every partial sum is exact, as for the
    whole numbers and the zeros summed below. *)
Definition py_sum (xs : list float) : float :=
  fold_left fadd xs (of_int 0).

(** [d.values()] of a dict, in insertion order. *)
Definition values {K V : Type} (d : list (K * V)) : list V := map snd d.

(** ** calculate_savings (app.py, lines 133-147) *)

Definition annual_trapped_total (trapped_funds : list (string * float)) : float :=
  py_sum (values trapped_funds).

(** The body of the [for year in range(1, years + 1)] loop; the state is
    [(cumulative_savings, total_savings)]. *)
Definition savings_step (net_annual_savings consulting_fee : float)
    (st : list float * float) (year : Z) : list float * float :=
  let '(cumulative_savings, total_savings) := st in
  let total_savings := fadd total_savings net_annual_savings in
  let total_savings :=
    if year =? 1 then fsub total_savings consulting_fee else total_savings in
  (cumulative_savings ++ [total_savings], total_savings).

Definition savings_loop (net_annual_savings consulting_fee : float) (years : Z)
    : list float :=
  fst (fold_left (savings_step net_annual_savings consulting_fee)
         (py_range 1 (years + 1)) ([], of_int 0)).

Definition calculate_savings (transaction_fee : float)
    (trapped_funds : list (string * float)) (loss_rate consulting_fee : float)
    (years : Z) : option (list float * float * float * float) :=
  let annual_trapped_total := annual_trapped_total trapped_funds in
  r <- truediv loss_rate (of_int 100) ;;
  let annual_current_loss := fmul annual_trapped_total r in
  f <- truediv transaction_fee (of_int 100) ;;
  let annual_blockchain_cost := fmul annual_trapped_total f in
  let net_annual_savings := fsub annual_current_loss annual_blockchain_cost in
  let cumulative_savings := savings_loop net_annual_savings consulting_fee years in
  Some (cumulative_savings, net_annual_savings, annual_current_loss,
        annual_blockchain_cost).

(** ** The payback loop (app.py, lines 162-170) *)

(** The loop body; the state is [(payback_year, cumulative)], an error is
    the [ZeroDivisionError] of [/]. *)
Definition payback_step (net_annual_savings consulting_fee : float)
    (st : option (option Z * float)) (year : Z) : option (option Z * float) :=
  s <- st ;;
  let '(payback_year, cumulative) := s in
  cumulative <-
    (if year =? 1 then
       q <- truediv consulting_fee (of_int 1000000) ;;
       Some (fadd cumulative (fsub net_annual_savings q))
     else Some (fadd cumulative net_annual_savings)) ;;
  let payback_year :=
    match payback_year with
    | None => if fleb (of_int 0) cumulative then Some year else None
    | Some _ => payback_year
    end in
  Some (payback_year, cumulative).

(** The [for year in range(1, selected_years + 1)] loop, started from the
    values [payback_year] and [cumulative] hold when it is entered. *)
Definition payback_loop (net_annual_savings consulting_fee : float)
    (selected_years : Z) (payback_year : option Z) (cumulative : float)
    : option (option Z * float) :=
  fold_left (payback_step net_annual_savings consulting_fee)
    (py_range 1 (selected_years + 1)) (Some (payback_year, cumulative)).

(** The summary cell
    [f"{payback_year if payback_year else 'Not within horizon'}"]: [None]
    and [0] are falsy. *)
Definition payback_display (payback_year : option Z) : string :=
  match payback_year with
  | Some y => if y =? 0 then "Not within horizon"%string
              else NilZero.string_of_int (Z.to_int y)
  | None => "Not within horizon"%string
  end.

(** ** The script around the two loops (app.py, lines 150-170) *)

(** The sidebar values of one run. *)
Record ScenarioParameters := {
  transactionFeePercent : float;              (* transaction_fee_percent *)
  trappedFunds : list (string * float);       (* annual_trapped_funds *)
  annualLossRatePercent : float;              (* annual_loss_rate_percent *)
  consultingFee : float;                      (* consulting_fee *)
  transactionsPerYear : list (string * Z);    (* transactions_per_year *)
  horizonYears : Z                            (* selected_years *)
}.

(** The module-level names that lines 150-170 bind; [None] is a name that
    is not bound yet, and reading it raises [NameError]. *)
Record Namespace := {
  ns_cumulative_savings : option (list float);
  ns_net_annual_savings : option float;
  ns_annual_current_loss : option float;
  ns_annual_blockchain_cost : option float;
  ns_payback_year : option (option Z);
  ns_cumulative : option float
}.

Definition fresh : Namespace :=
  {| ns_cumulative_savings := None; ns_net_annual_savings := None;
     ns_annual_current_loss := None; ns_annual_blockchain_cost := None;
     ns_payback_year := None; ns_cumulative := None |}.

Definition run_script (p : ScenarioParameters) (ns : Namespace) : option Namespace :=
  (* lines 150-156 *)
  r <- calculate_savings (transactionFeePercent p) (trappedFunds p)
         (annualLossRatePercent p) (consultingFee p) (horizonYears p) ;;
  let '(cs, net, loss, cost) := r in
  let ns := {| ns_cumulative_savings := Some cs; ns_net_annual_savings := Some net;
               ns_annual_current_loss := Some loss;
               ns_annual_blockchain_cost := Some cost;
               ns_payback_year := ns_payback_year ns;
               ns_cumulative := ns_cumulative ns |} in
  (* line 162: payback_year = None *)
  let ns := {| ns_cumulative_savings := ns_cumulative_savings ns;
               ns_net_annual_savings := ns_net_annual_savings ns;
               ns_annual_current_loss := ns_annual_current_loss ns;
               ns_annual_blockchain_cost := ns_annual_blockchain_cost ns;
               ns_payback_year := Some None;
               ns_cumulative := ns_cumulative ns |} in
  (* line 163: cumulative = 0 *)
  let ns := {| ns_cumulative_savings := ns_cumulative_savings ns;
               ns_net_annual_savings := ns_net_annual_savings ns;
               ns_annual_current_loss := ns_annual_current_loss ns;
               ns_annual_blockchain_cost := ns_annual_blockchain_cost ns;
               ns_payback_year := ns_payback_year ns;
               ns_cumulative := Some (of_int 0) |} in
  (* lines 164-170 *)
  net_annual_savings <- ns_net_annual_savings ns ;;
  payback_year <- ns_payback_year ns ;;
  cumulative <- ns_cumulative ns ;;
  s <- payback_loop net_annual_savings (consultingFee p) (horizonYears p)
         payback_year cumulative ;;
  Some {| ns_cumulative_savings := ns_cumulative_savings ns;
          ns_net_annual_savings := ns_net_annual_savings ns;
          ns_annual_current_loss := ns_annual_current_loss ns;
          ns_annual_blockchain_cost := ns_annual_blockchain_cost ns;
          ns_payback_year := Some (fst s);
          ns_cumulative := Some (snd s) |}.

(** What the run hands to the tables and the chart. *)
Record SavingsResult := {
  annualTrappedTotal : float;
  annualCurrentLoss : float;
  annualBlockchainCost : float;
  netAnnualSavings : float;
  cumulativeSavingsByYear : list float;
  paybackYear : option Z
}.

Definition result_of (p : ScenarioParameters) (ns : Namespace) : option SavingsResult :=
  cs <- ns_cumulative_savings ns ;;
  net <- ns_net_annual_savings ns ;;
  loss <- ns_annual_current_loss ns ;;
  cost <- ns_annual_blockchain_cost ns ;;
  py <- ns_payback_year ns ;;
  Some {| annualTrappedTotal := annual_trapped_total (trappedFunds p);
          annualCurrentLoss := loss; annualBlockchainCost := cost;
          netAnnualSavings := net; cumulativeSavingsByYear := cs;
          paybackYear := py |}.

(** One run of the script from a given namespace, and from a fresh one. *)
Definition project_from (ns : Namespace) (p : ScenarioParameters) : option SavingsResult :=
  ns' <- run_script p ns ;;
  result_of p ns'.

Definition project (p : ScenarioParameters) : option SavingsResult :=
  project_from fresh p.

(** ** Valid parameters (the ranges of the sidebar widgets) *)

Definition in_range (lo hi x : float) : bool :=
  wf x && fleb lo x && fleb x hi.

Definition amount_ok (x : float) : bool :=
  wf x && is_finite x && fleb (of_int 0) x.

Fixpoint unique_keys {V : Type} (d : list (string * V)) : bool :=
  match d with
  | [] => true
  | (k, _) :: d' =>
      negb (existsb (fun kv => String.eqb k (fst kv)) d') && unique_keys d'
  end.

Definition valid (p : ScenarioParameters) : bool :=
  in_range (of_int 0) (of_int 5) (transactionFeePercent p)
  && forallb (fun kv => amount_ok (snd kv)) (trappedFunds p)
  && unique_keys (trappedFunds p)
  && in_range (of_int 0) (of_int 25) (annualLossRatePercent p)
  && amount_ok (consultingFee p)
  && forallb (fun kv => (1 <=? snd kv) && (snd kv <=? 100)) (transactionsPerYear p)
  && unique_keys (transactionsPerYear p)
  && (1 <=? horizonYears p) && (horizonYears p <=? 20).

(** ** The series and the running sum in closed form *)

(** [total_savings] after [y] iterations of the loop of [calculate_savings]. *)
Fixpoint total_after (net_annual_savings consulting_fee : float) (y : nat) : float :=
  match y with
  | O => of_int 0
  | S y' =>
      let t := fadd (total_after net_annual_savings consulting_fee y') net_annual_savings in
      if Nat.eqb y' 0 then fsub t consulting_fee else t
  end.

(** The running sum of the payback computation as the specification words
    it: every year adds [netAnnualSavings], and year 1 subtracts
    [consultingFee / 1,000,000]. *)
Fixpoint running_sum (netAnnualSavings consultingFee : float) (y : nat) : float :=
  match y with
  | O => of_int 0
  | S y' =>
      let prev := running_sum netAnnualSavings consultingFee y' in
      if Nat.eqb y' 0
      then fadd prev (fsub netAnnualSavings (fdiv consultingFee (of_int 1000000)))
      else fadd prev netAnnualSavings
  end.

(** Year [y] (1-indexed) of a series. *)
Definition year_of (series : list float) (y : Z) : float :=
  nth (Z.to_nat (y - 1)) series S754_nan.

(** Year [y] reaches the break-even line. *)
Definition reached (netAnnualSavings consultingFee : float) (y : Z) : bool :=
  fleb (of_int 0) (running_sum netAnnualSavings consultingFee (Z.to_nat y)).

(** The payback year as the specification words it: the first year of the
    horizon at which the running sum is [>= 0], if there is one. *)
Definition first_payback (netAnnualSavings consultingFee : float) (horizonYears : Z)
    : option Z :=
  find (reached netAnnualSavings consultingFee) (py_range 1 (horizonYears + 1)).

(** The quantities of [calculate_savings] as functions of the parameters. *)
Definition annual_current_loss_of (p : ScenarioParameters) : float :=
  fmul (annual_trapped_total (trappedFunds p))
       (fdiv (annualLossRatePercent p) (of_int 100)).

Definition annual_blockchain_cost_of (p : ScenarioParameters) : float :=
  fmul (annual_trapped_total (trappedFunds p))
       (fdiv (transactionFeePercent p) (of_int 100)).

Definition net_annual_savings_of (p : ScenarioParameters) : float :=
  fsub (annual_current_loss_of p) (annual_blockchain_cost_of p).

(** ** Sample runs *)

(** The presets of [default_params] share the trapped funds and the
    transaction counts. *)
Definition default_trapped_funds : list (string * float) :=
  [("Bangladesh"%string, of_int 1000000); ("Pakistan"%string, of_int 500000);
   ("Others"%string, of_int 300000)].

Definition default_transactions : list (string * Z) :=
  [("Bangladesh"%string, 12); ("Pakistan"%string, 12); ("Others"%string, 12)].

(** "Average Estimate" with the default consulting fee and horizon. *)
Definition average_estimate : ScenarioParameters :=
  {| transactionFeePercent := of_decimal 225 2;
     trappedFunds := default_trapped_funds;
     annualLossRatePercent := of_int 15;
     consultingFee := of_int 250000;
     transactionsPerYear := default_transactions;
     horizonYears := 10 |}.

(** The same run with every country set to 24 transactions a year. *)
Definition average_estimate_24 : ScenarioParameters :=
  {| transactionFeePercent := of_decimal 225 2;
     trappedFunds := default_trapped_funds;
     annualLossRatePercent := of_int 15;
     consultingFee := of_int 250000;
     transactionsPerYear :=
       [("Bangladesh"%string, 24); ("Pakistan"%string, 24); ("Others"%string, 24)];
     horizonYears := 10 |}.

(** Trapped funds of 10.0 in one country, loss rate 0 %, transaction fee
    1 %, no consulting fee, five years: the channel costs 0.1 a year. *)
Definition costly_channel : ScenarioParameters :=
  {| transactionFeePercent := of_int 1;
     trappedFunds :=
       [("Bangladesh"%string, of_int 10); ("Pakistan"%string, of_int 0);
        ("Others"%string, of_int 0)];
     annualLossRatePercent := of_int 0;
     consultingFee := of_int 0;
     transactionsPerYear := default_transactions;
     horizonYears := 5 |}.

(** The smallest positive double, [5e-324]. *)
Definition min_subnormal : float := S754_finite false 1 (-1074).

(** No trapped funds at all and a consulting fee of [5e-324]. *)
Definition tiny_fee : ScenarioParameters :=
  {| transactionFeePercent := of_decimal 225 2;
     trappedFunds :=
       [("Bangladesh"%string, of_int 0); ("Pakistan"%string, of_int 0);
        ("Others"%string, of_int 0)];
     annualLossRatePercent := of_int 15;
     consultingFee := min_subnormal;
     transactionsPerYear := default_transactions;
     horizonYears := 10 |}.

(** No trapped funds and the default consulting fee. *)
Definition no_funds : ScenarioParameters :=
  {| transactionFeePercent := of_decimal 225 2;
     trappedFunds :=
       [("Bangladesh"%string, of_int 0); ("Pakistan"%string, of_int 0);
        ("Others"%string, of_int 0)];
     annualLossRatePercent := of_int 15;
     consultingFee := of_int 250000;
     transactionsPerYear := default_transactions;
     horizonYears := 10 |}.

(** "Conservative Estimate" with the loss rate slider moved to 0 %. *)
Definition conservative_no_loss : ScenarioParameters :=
  {| transactionFeePercent := of_int 3;
     trappedFunds := default_trapped_funds;
     annualLossRatePercent := of_int 0;
     consultingFee := of_int 250000;
     transactionsPerYear := default_transactions;
     horizonYears := 10 |}.

(** ** The net annual savings as the specification writes them *)





(** ** The rest of the script: presets, sidebar and tables *)

(** [d[k]] on a dict: [KeyError] on a missing key. *)
Definition dict_getitem {V : Type} (d : list (string * V)) (k : string) : option V :=
  match find (fun kv => String.eqb k (fst kv)) d with
  | Some kv => Some (snd kv)
  | None => None
  end.

(** [d[k] = v]: the value of an existing key is replaced where it stands,
    a new key goes to the end. *)
Fixpoint dict_setitem {V : Type} (d : list (string * V)) (k : string) (v : V)
    : list (string * V) :=
  match d with
  | [] => [(k, v)]
  | (k', v') :: d' =>
      if String.eqb k k' then (k', v) :: d' else (k', v') :: dict_setitem d' k v
  end.

(** [d.keys()], in insertion order. *)
Definition keys {K V : Type} (d : list (K * V)) : list K := map fst d.

(** [xs[i]] on a list: a negative index counts from the end, and an index
    out of range raises [IndexError]. *)
Definition list_getitem {A : Type} (xs : list A) (i : Z) : option A :=
  let n := Z.of_nat (List.length xs) in
  let j := if i <? 0 then i + n else i in
  if (0 <=? j) && (j <? n) then nth_error xs (Z.to_nat j) else None.

(** One entry of [default_params] (lines 22-65). *)
Record Preset := {
  transaction_fee_percent : float;
  annual_trapped_funds : list (string * float);
  annual_loss_rate_percent : float;
  transactions_per_year : list (string * Z)
}.

Definition scenarios : list string :=
  ["Conservative Estimate"%string; "Average Estimate"%string;
   "Optimistic Estimate"%string].

Definition default_params : list (string * Preset) :=
  [("Conservative Estimate"%string,
    {| transaction_fee_percent := of_int 3;
       annual_trapped_funds :=
         [("Bangladesh"%string, of_int 1000000); ("Pakistan"%string, of_int 500000);
          ("Others"%string, of_int 300000)];
       annual_loss_rate_percent := of_int 10;
       transactions_per_year :=
         [("Bangladesh"%string, 12); ("Pakistan"%string, 12); ("Others"%string, 12)] |});
   ("Average Estimate"%string,
    {| transaction_fee_percent := of_decimal 225 2;
       annual_trapped_funds :=
         [("Bangladesh"%string, of_int 1000000); ("Pakistan"%string, of_int 500000);
          ("Others"%string, of_int 300000)];
       annual_loss_rate_percent := of_int 15;
       transactions_per_year :=
         [("Bangladesh"%string, 12); ("Pakistan"%string, 12); ("Others"%string, 12)] |});
   ("Optimistic Estimate"%string,
    {| transaction_fee_percent := of_decimal 15 1;
       annual_trapped_funds :=
         [("Bangladesh"%string, of_int 1000000); ("Pakistan"%string, of_int 500000);
          ("Others"%string, of_int 300000)];
       annual_loss_rate_percent := of_int 20;
       transactions_per_year :=
         [("Bangladesh"%string, 12); ("Pakistan"%string, 12); ("Others"%string, 12)] |})].

(** The Streamlit widgets of one run.  What the user enters is not in the
    script, so each widget is a function of the arguments the script passes
    (help texts and display formats left out). *)
Record Widgets := {
  selectbox : string -> list string -> string;          (* label, options *)
  slider_float : string -> float -> float -> float -> float -> float;
                                               (* label, min, max, value, step *)
  slider_int : string -> Z -> Z -> Z -> Z;              (* label, min, max, value *)
  number_input_float : string -> float -> float -> float -> float;
                                               (* label, min_value, value, step *)
  number_input_int : string -> Z -> Z -> Z -> Z -> Z
                                               (* label, min, max, value, step *)
}.

(** The ranges the widgets keep when the script calls them with a default
    inside the range (Streamlit refuses any other call): a select box
    returns one of its options, a slider or number input a value between
    its bounds, and a float input without upper bound a finite double from
    its lower bound on. *)
Record widgets_in_range (w : Widgets) : Prop := {
  selectbox_in_options : forall label options,
    options <> [] -> In (selectbox w label options) options;
  slider_float_in_range : forall label lo hi value step,
    in_range lo hi value = true ->
    in_range lo hi (slider_float w label lo hi value step) = true;
  slider_int_in_range : forall label lo hi value,
    lo <= value <= hi -> lo <= slider_int w label lo hi value <= hi;
  number_input_float_in_range : forall label lo value step,
    wf value && is_finite value && fleb lo value = true ->
    wf (number_input_float w label lo value step)
    && is_finite (number_input_float w label lo value step)
    && fleb lo (number_input_float w label lo value step) = true;
  number_input_int_in_range : forall label lo hi value step,
    lo <= value <= hi -> lo <= number_input_int w label lo hi value step <= hi
}.

(** Lines 83-92: one number input per country of the preset. *)
Definition trapped_funds_inputs (w : Widgets) (scenario_params : Preset)
    : list (string * float) :=
  fold_left
    (fun annual_trapped_funds kv =>
       let '(country, amount) := kv in
       dict_setitem annual_trapped_funds country
         (number_input_float w (country ++ " ($)") (of_int 0) amount (of_int 10000)))
    (annual_trapped_funds scenario_params) [].

(** Lines 118-127. *)
Definition transactions_inputs (w : Widgets) (scenario_params : Preset)
    : list (string * Z) :=
  fold_left
    (fun transactions_per_year kv =>
       let '(country, txn_default) := kv in
       dict_setitem transactions_per_year country
         (number_input_int w ("Number of Transactions per Year for " ++ country)
            1 100 txn_default 1))
    (transactions_per_year scenario_params) [].

(** Lines 18-130: the sidebar, from the scenario to the horizon. *)
Definition sidebar (w : Widgets) : option ScenarioParameters :=
  let selected_scenario := selectbox w "Select Scenario" scenarios in
  scenario_params <- dict_getitem default_params selected_scenario ;;
  let transaction_fee_percent :=
    slider_float w "Transaction Fee (%)" (of_int 0) (of_int 5)
      (transaction_fee_percent scenario_params) (of_decimal 1 1) in
  let annual_trapped_funds := trapped_funds_inputs w scenario_params in
  let annual_loss_rate_percent :=
    slider_float w "Annual Loss Rate on Trapped Cash (%)" (of_int 0) (of_int 25)
      (annual_loss_rate_percent scenario_params) (of_decimal 5 1) in
  let consulting_fee :=
    number_input_float w "One-Off Consulting Fee ($)" (of_int 0) (of_int 250000)
      (of_int 10000) in
  let transactions_per_year := transactions_inputs w scenario_params in
  let selected_years := slider_int w "Select Time Horizon (Years)" 1 20 10 in
  Some {| transactionFeePercent := transaction_fee_percent;
          trappedFunds := annual_trapped_funds;
          annualLossRatePercent := annual_loss_rate_percent;
          consultingFee := consulting_fee;
          transactionsPerYear := transactions_per_year;
          horizonYears := selected_years |}.

(** Line 173, after the call of lines 150-156. *)
Definition total_savings_over_period (p : ScenarioParameters) : option float :=
  r <- calculate_savings (transactionFeePercent p) (trappedFunds p)
         (annualLossRatePercent p) (consultingFee p) (horizonYears p) ;;
  let '(cumulative_savings, _, _, _) := r in
  list_getitem cumulative_savings (-1).

(** *** Tables *)

(** A cell of a table: the script puts ints and strings there. *)
Inductive Cell : Type :=
  | CInt (n : Z)
  | CStr (s : string).

(** [pd.DataFrame({name: column, ...})]: the columns must have one length,
    otherwise the constructor raises [ValueError]. *)
Definition DataFrame : Type := list (string * list Cell).

Definition data_frame (columns : list (string * list Cell)) : option DataFrame :=
  match columns with
  | [] => Some []
  | (_, c) :: rest =>
      if forallb (fun col => Nat.eqb (List.length (snd col)) (List.length c)) rest
      then Some columns else None
  end.

(** Row [i] of a table, column by column. *)
Definition row (df : DataFrame) (i : nat) : list (option Cell) :=
  map (fun col => nth_error (snd col) i) df.

(** How the script prints numbers: [f"${x:,.2f}"] and [f"{x}"] on floats
    are left to the formatter, [f"{n}"] on an int is its decimal numeral. *)
Record Formats := {
  money : float -> string;       (* f"${x:,.2f}" *)
  plain : float -> string        (* f"{x}" *)
}.

Definition str_int (n : Z) : string := NilZero.string_of_int (Z.to_int n).

(** Lines 214-226. *)
Definition scenario_df (fmt : Formats) (p : ScenarioParameters) : option DataFrame :=
  data_frame
    [("Parameter"%string,
      [CStr "Transaction Fee (%)"; CStr "Annual Loss Rate on Trapped Cash (%)";
       CStr "Consulting Fee ($)"]
      ++ map CStr (keys (trappedFunds p))
      ++ map CStr (keys (transactionsPerYear p)));
     ("Value"%string,
      [CStr (plain fmt (transactionFeePercent p) ++ "%");
       CStr (plain fmt (annualLossRatePercent p) ++ "%");
       CStr (money fmt (consultingFee p))]
      ++ map (fun amount => CStr (money fmt amount)) (values (trappedFunds p))
      ++ map (fun txn => CStr (str_int txn ++ " transactions/year"))
           (values (transactionsPerYear p)))].

(** Lines 231-234. *)
Definition cumulative_df (fmt : Formats) (selected_years : Z)
    (cumulative_savings : list float) : option DataFrame :=
  data_frame
    [("Year"%string, map CInt (py_range 1 (selected_years + 1)));
     ("Cumulative Savings ($)"%string,
      map (fun value => CStr (money fmt value)) cumulative_savings)].

(** Lines 175-190. *)
Definition summary_df (fmt : Formats) (total_savings_over_period : float)
    (r : SavingsResult) : option DataFrame :=
  data_frame
    [("Metric"%string,
      [CStr "Total Savings Over Period ($)"; CStr "Net Annual Savings ($)";
       CStr "Annual Current Loss ($)"; CStr "Annual Blockchain Cost ($)";
       CStr "Payback Period (Years)"]);
     ("Value"%string,
      [CStr (money fmt total_savings_over_period);
       CStr (money fmt (netAnnualSavings r));
       CStr (money fmt (annualCurrentLoss r));
       CStr (money fmt (annualBlockchainCost r));
       CStr (payback_display (paybackYear r))])].

(** What one run shows. *)
Record Dashboard := {
  summary : DataFrame;
  chart_x : list Z;                  (* line 197 *)
  chart_y : list float;              (* line 198 *)
  scenario_details : DataFrame;
  yearly : DataFrame
}.

(** The whole script: any exception aborts the run. *)
Definition script (w : Widgets) (fmt : Formats) : option Dashboard :=
  p <- sidebar w ;;
  r <- project p ;;
  total <- total_savings_over_period p ;;
  summary <- summary_df fmt total r ;;
  details <- scenario_df fmt p ;;
  yearly <- cumulative_df fmt (horizonYears p) (cumulativeSavingsByYear r) ;;
  Some {| summary := summary;
          chart_x := py_range 1 (horizonYears p + 1);
          chart_y := cumulativeSavingsByYear r;
          scenario_details := details;
          yearly := yearly |}.

(** A user who leaves every widget at its default. *)
Definition untouched : Widgets :=
  {| selectbox := fun _ options => hd EmptyString options;
     slider_float := fun _ _ _ value _ => value;
     slider_int := fun _ _ _ value => value;
     number_input_float := fun _ _ value _ => value;
     number_input_int := fun _ _ _ value _ => value |}.

(** The parameters with another horizon. *)
Definition with_horizon (p : ScenarioParameters) (years : Z) : ScenarioParameters :=
  {| transactionFeePercent := transactionFeePercent p;
     trappedFunds := trappedFunds p;
     annualLossRatePercent := annualLossRatePercent p;
     consultingFee := consultingFee p;
     transactionsPerYear := transactionsPerYear p;
     horizonYears := years |}.

(** "Conservative Estimate" with the loss rate slider moved down to the
    transaction fee, 3 %. *)
Definition equal_rates : ScenarioParameters :=
  {| transactionFeePercent := of_int 3;
     trappedFunds := default_trapped_funds;
     annualLossRatePercent := of_int 3;
     consultingFee := of_int 250000;
     transactionsPerYear := default_transactions;
     horizonYears := 10 |}.

(** * Facts about binary64 arithmetic *)

(** ** The number of binary digits *)

Lemma digits2_pos_size p : digits2_pos p = Pos.size p.
Proof. induction p; simpl; congruence. Qed.

Lemma digits2_log2 p : Zpos (digits2_pos p) = Z.succ (Z.log2 (Zpos p)).
Proof.
  rewrite digits2_pos_size. destruct p; simpl; lia.
Qed.

Lemma digits2_bounds p :
  2 ^ (Zpos (digits2_pos p) - 1) <= Zpos p < 2 ^ Zpos (digits2_pos p).
Proof.
  rewrite digits2_log2.
  replace (Z.succ (Z.log2 (Z.pos p)) - 1) with (Z.log2 (Zpos p)) by lia.
  apply Z.log2_spec. lia.
Qed.

Lemma digits2_unique p d :
  2 ^ (d - 1) <= Zpos p < 2 ^ d -> Zpos (digits2_pos p) = d.
Proof.
  intros H. rewrite digits2_log2.
  assert (0 <= d - 1).
  { destruct (Z_lt_le_dec (d - 1) 0) as [Hn|]; [|lia].
    destruct (Z_lt_le_dec d 0).
    - rewrite (Z.pow_neg_r 2 d) in H by lia. lia.
    - replace d with 0 in H by lia. simpl in H. lia. }
  rewrite (Z.log2_unique (Zpos p) (d - 1)); try lia.
  replace (Z.succ (d - 1)) with d by lia. lia.
Qed.

Lemma Zdigits2_nonneg n : 0 <= Zdigits2 n.
Proof. destruct n; simpl; lia. Qed.

Lemma Zdigits2_bounds n : 0 < n -> 2 ^ (Zdigits2 n - 1) <= n < 2 ^ Zdigits2 n.
Proof. destruct n; try lia. intros _. apply digits2_bounds. Qed.

Lemma Zdigits2_lt_pow n d : 0 <= n < 2 ^ d -> 0 <= d -> Zdigits2 n <= d.
Proof.
  intros [H0 H1] Hd. destruct n as [|p|p]; simpl; try lia.
  destruct (Z_le_gt_dec (Zpos (digits2_pos p)) d) as [|Hgt]; [assumption|].
  pose proof (digits2_bounds p) as [Hl _].
  assert (2 ^ d <= 2 ^ (Zpos (digits2_pos p) - 1)) by (apply Z.pow_le_mono_r; lia).
  lia.
Qed.

Lemma Zdigits2_ge_pow n d : 2 ^ d <= n -> 0 <= d -> d < Zdigits2 n.
Proof.
  intros H Hd. assert (0 < 2 ^ d) by (apply Z.pow_pos_nonneg; lia).
  pose proof (Zdigits2_bounds n ltac:(lia)) as [_ Hu].
  destruct (Z_lt_le_dec d (Zdigits2 n)); [assumption|].
  assert (2 ^ Zdigits2 n <= 2 ^ d) by (apply Z.pow_le_mono_r; [lia|lia]).
  lia.
Qed.

Lemma Zdigits2_mono a b : 0 <= a <= b -> Zdigits2 a <= Zdigits2 b.
Proof.
  intros [Ha Hab]. destruct (Z.eq_dec a 0) as [->|Hn].
  - simpl. apply Zdigits2_nonneg.
  - pose proof (Zdigits2_bounds a ltac:(lia)) as [Hl _].
    pose proof (Zdigits2_nonneg a).
    assert (0 < Zdigits2 a).
    { destruct a; simpl in *; lia. }
    pose proof (Zdigits2_ge_pow b (Zdigits2 a - 1) ltac:(lia) ltac:(lia)). lia.
Qed.

(** ** Right shifts and the bits they drop *)

Lemma iter_pos_nat {A} (f : A -> A) p x :
  iter_pos f p x = Nat.iter (Pos.to_nat p) f x.
Proof.
  revert x. induction p as [p IH|p IH|]; intros x; cbn [iter_pos].
  - rewrite !IH. rewrite Pos2Nat.inj_xI.
    replace (S (2 * Pos.to_nat p)) with (Pos.to_nat p + (Pos.to_nat p + 1))%nat by lia.
    rewrite !Nat.iter_add. simpl. reflexivity.
  - rewrite !IH. rewrite Pos2Nat.inj_xO.
    replace (2 * Pos.to_nat p)%nat with (Pos.to_nat p + Pos.to_nat p)%nat by lia.
    rewrite Nat.iter_add. reflexivity.
  - reflexivity.
Qed.

Lemma shr_1_m r : 0 <= shr_m r -> shr_m (shr_1 r) = shr_m r / 2.
Proof.
  destruct r as [m r s]; simpl. intros Hm.
  rewrite <- Z.div2_div.
  destruct m as [|[p|p|]|]; try lia; reflexivity.
Qed.

Lemma shr_1_exact r :
  0 <= shr_m r ->
  exact_rec (shr_1 r) = exact_rec r && Z.even (shr_m r).
Proof.
  destruct r as [m r s]; unfold exact_rec; simpl. intros Hm.
  destruct m as [|[p|p|]|]; simpl; try lia; destruct r, s; reflexivity.
Qed.

Lemma mod_double_even m q :
  0 < q -> (m mod q =? 0) && Z.even (m / q) = (m mod (2 * q) =? 0).
Proof.
  intros Hq.
  pose proof (Z.div_mod m q ltac:(lia)) as Hdm.
  pose proof (Z.mod_pos_bound m q ltac:(lia)) as Hb.
  revert Hdm Hb. generalize (m / q) (m mod q). intros a b Hdm Hb. subst m.
  destruct (Z.eqb_spec b 0) as [Hb0|Hb0]; cbn [andb].
  - subst b. rewrite Z.add_0_r.
    destruct (Z.even a) eqn:Hev.
    + apply Z.even_spec in Hev. destruct Hev as [c Hc].
      symmetry. apply Z.eqb_eq. rewrite Hc.
      replace (q * (2 * c)) with (c * (2 * q)) by ring.
      apply Z.mod_mul; lia.
    + symmetry. apply Z.eqb_neq. intros Hmod.
      apply Z.mod_divide in Hmod; [|lia]. destruct Hmod as [c Hc].
      assert (a = 2 * c) by (apply (Z.mul_reg_l _ _ q); lia).
      assert (Z.even a = true) by (apply Z.even_spec; exists c; lia).
      congruence.
  - symmetry. apply Z.eqb_neq. intros Hmod.
    apply Z.mod_divide in Hmod; [|lia]. destruct Hmod as [c Hc].
    assert (Hbq : b = q * (2 * c - a)) by lia.
    assert (2 * c - a = 0); [|subst b; nia].
    destruct (Z_lt_le_dec (2 * c - a) 1) as [Hlt|Hge].
    + destruct (Z_lt_le_dec (2 * c - a) 0) as [Hneg|]; [|lia].
      assert (q * (2 * c - a) <= q * (-1)) by (apply Z.mul_le_mono_nonneg_l; lia). lia.
    + assert (q * 1 <= q * (2 * c - a)) by (apply Z.mul_le_mono_nonneg_l; lia). lia.
Qed.

Lemma shr_iter_spec n r :
  0 <= shr_m r ->
  shr_m (Nat.iter n shr_1 r) = shr_m r / 2 ^ Z.of_nat n /\
  exact_rec (Nat.iter n shr_1 r) = exact_rec r && (shr_m r mod 2 ^ Z.of_nat n =? 0).
Proof.
  intros Hm. induction n as [|n [IHm IHe]].
  - simpl. rewrite Z.div_1_r, Z.mod_1_r. simpl. rewrite andb_true_r. auto.
  - change (Nat.iter (S n) shr_1 r) with (shr_1 (Nat.iter n shr_1 r)).
    assert (Hp : 0 < 2 ^ Z.of_nat n) by (apply Z.pow_pos_nonneg; lia).
    assert (H0 : 0 <= shr_m (Nat.iter n shr_1 r)).
    { rewrite IHm. apply Z.div_pos; lia. }
    rewrite shr_1_m, shr_1_exact by assumption.
    rewrite IHm, IHe. rewrite Nat2Z.inj_succ, Z.pow_succ_r by lia.
    split.
    + rewrite Z.div_div by lia. f_equal. lia.
    + rewrite <- andb_assoc. f_equal. apply mod_double_even. assumption.
Qed.

Lemma shr_pos_spec p r :
  0 <= shr_m r ->
  shr_m (iter_pos shr_1 p r) = shr_m r / 2 ^ Zpos p /\
  exact_rec (iter_pos shr_1 p r) = exact_rec r && (shr_m r mod 2 ^ Zpos p =? 0).
Proof.
  intros Hm. rewrite iter_pos_nat.
  rewrite <- (positive_nat_Z p). apply shr_iter_spec. assumption.
Qed.

Lemma round_nearest_even_bounds m l :
  m <= round_nearest_even m l <= m + 1.
Proof. destruct l as [|[]]; simpl; try lia. destruct (Z.even m); lia. Qed.

Lemma round_nearest_even_exact r :
  exact_rec r = true ->
  round_nearest_even (shr_m r) (loc_of_shr_record r) = shr_m r.
Proof.
  destruct r as [m [] []]; unfold exact_rec; simpl; try discriminate. reflexivity.
Qed.

Lemma pos_iter_xO m d : Zpos (Pos.iter xO m d) = Zpos m * 2 ^ Zpos d.
Proof.
  induction d using Pos.peano_ind.
  - simpl. lia.
  - rewrite Pos.iter_succ. rewrite Pos2Z.inj_xO, IHd.
    rewrite Pos2Z.inj_succ, Z.pow_succ_r by lia. ring.
Qed.

(** ** Canonical mantissas and the order of doubles *)

Lemma fexp_eq k : fexp k = Z.max (k - 53) (-1074).
Proof. reflexivity. Qed.

Lemma fexp_mono a b : a <= b -> fexp a <= fexp b.
Proof. rewrite !fexp_eq. lia. Qed.

Lemma canonical_facts m e :
  canonical m e = true ->
  fexp (Zpos (digits2_pos m) + e) = e /\ -1074 <= e /\
  Zpos (digits2_pos m) <= 53 /\ (-1074 < e -> Zpos (digits2_pos m) = 53).
Proof.
  unfold canonical_mantissa. intros H. apply Z.eqb_eq in H.
  split; [assumption|]. rewrite fexp_eq in H. lia.
Qed.

Lemma pow2_pos a : 0 <= a -> 0 < 2 ^ a.
Proof. intros. apply Z.pow_pos_nonneg; lia. Qed.

Lemma pow2_split a b : 0 <= a -> 0 <= b -> 2 ^ (a + b) = 2 ^ a * 2 ^ b.
Proof. intros. apply Z.pow_add_r; assumption. Qed.

Lemma ival_pos m e : -1074 <= e -> 0 < ival m e.
Proof. intros. unfold ival. pose proof (pow2_pos (e + 1074) ltac:(lia)). nia. Qed.

Lemma ival_bounds m e :
  -1074 <= e ->
  2 ^ (Zpos (digits2_pos m) + e + 1073) <= ival m e < 2 ^ (Zpos (digits2_pos m) + e + 1074).
Proof.
  intros He. unfold ival. pose proof (digits2_bounds m) as [Hl Hu].
  pose proof (pow2_pos (e + 1074) ltac:(lia)) as Hp.
  assert (0 < Zpos (digits2_pos m)) by lia.
  replace (Zpos (digits2_pos m) + e + 1073) with ((Zpos (digits2_pos m) - 1) + (e + 1074)) by lia.
  replace (Zpos (digits2_pos m) + e + 1074) with (Zpos (digits2_pos m) + (e + 1074)) by lia.
  rewrite (pow2_split (Zpos (digits2_pos m) - 1) (e + 1074)) by lia.
  rewrite (pow2_split (Zpos (digits2_pos m)) (e + 1074)) by lia.
  split.
  - apply Z.mul_le_mono_nonneg_r; lia.
  - apply Zmult_lt_compat_r; lia.
Qed.

(** Values of canonical mantissas are ordered by exponent first. *)
Lemma ival_lt_exp m1 e1 m2 e2 :
  canonical m1 e1 = true -> canonical m2 e2 = true ->
  e1 < e2 -> ival m1 e1 < ival m2 e2.
Proof.
  intros H1 H2 Hlt.
  apply canonical_facts in H1 as (_ & Hmin1 & Hd1 & _).
  apply canonical_facts in H2 as (_ & Hmin2 & _ & Hd2).
  specialize (Hd2 ltac:(lia)).
  pose proof (ival_bounds m1 e1 Hmin1) as [_ Hu].
  pose proof (ival_bounds m2 e2 Hmin2) as [Hl _].
  rewrite Hd2 in Hl.
  assert (2 ^ (Zpos (digits2_pos m1) + e1 + 1074) <= 2 ^ (53 + e2 + 1073))
    by (apply Z.pow_le_mono_r; lia).
  lia.
Qed.

Lemma ival_compare m1 e1 m2 e2 :
  canonical m1 e1 = true -> canonical m2 e2 = true ->
  match e1 ?= e2 with
  | Lt => Lt
  | Gt => Gt
  | Eq => Pos.compare_cont Eq m1 m2
  end = (ival m1 e1 ?= ival m2 e2).
Proof.
  intros H1 H2. destruct (Z.compare_spec e1 e2) as [He|He|He].
  - subst e2. unfold ival.
    pose proof (canonical_facts _ _ H1) as (_ & Hmin & _).
    pose proof (pow2_pos (e1 + 1074) ltac:(lia)).
    change (Pos.compare_cont Eq m1 m2) with (Zpos m1 ?= Zpos m2).
    apply Zmult_compare_compat_r. lia.
  - symmetry. apply Z.compare_lt_iff. apply ival_lt_exp; assumption.
  - symmetry. apply Z.compare_gt_iff. apply ival_lt_exp; assumption.
Qed.

Lemma bounded_facts m e :
  bounded prec emax m e = true -> canonical m e = true /\ e <= 971.
Proof.
  unfold bounded. intros H. apply andb_true_iff in H as [H1 H2].
  apply Z.leb_le in H2. split; [assumption|]. exact H2.
Qed.

Lemma ival_lt_huge m e : bounded prec emax m e = true -> 0 < ival m e < huge.
Proof.
  intros H. apply bounded_facts in H as [Hc He].
  apply canonical_facts in Hc as (_ & Hmin & Hd & _).
  pose proof (ival_bounds m e Hmin) as [_ Hu].
  pose proof (ival_pos m e Hmin).
  assert (2 ^ (Zpos (digits2_pos m) + e + 1074) <= huge).
  { unfold huge. apply Z.pow_le_mono_r; lia. }
  lia.
Qed.

Lemma SFcompare_rank x y :
  wf x = true -> wf y = true -> is_nan x = false -> is_nan y = false ->
  SFcompare x y = Some (rank x ?= rank y).
Proof.
  intros Hx Hy Nx Ny.
  assert (Hh : 0 < huge) by (unfold huge; apply pow2_pos; lia).
  destruct x as [sx|sx| |sx mx ex], y as [sy|sy| |sy my ey];
    try discriminate; unfold wf in *; cbn [valid_binary] in *; cbn [SFcompare rank].
  - reflexivity.
  - destruct sy; rank_cmp.
  - pose proof (ival_lt_huge _ _ Hy). destruct sy; rank_cmp.
  - destruct sx; rank_cmp.
  - destruct sx, sy; rank_cmp.
  - pose proof (ival_lt_huge _ _ Hy). destruct sx, sy; rank_cmp.
  - pose proof (ival_lt_huge _ _ Hx). destruct sx; rank_cmp.
  - pose proof (ival_lt_huge _ _ Hx). destruct sx, sy; rank_cmp.
  - pose proof (ival_lt_huge _ _ Hx). pose proof (ival_lt_huge _ _ Hy).
    apply bounded_facts in Hx as [Hcx _]. apply bounded_facts in Hy as [Hcy _].
    destruct sx, sy; cbn [cond_Zopp]; apply f_equal.
    + rewrite Z.compare_opp. rewrite <- (ival_compare my ey mx ex) by assumption.
      rewrite (Z.compare_antisym ey ex).
      destruct (ey ?= ex); cbn [CompOpp]; try reflexivity.
      rewrite (Pos.compare_cont_antisym mx my Eq). reflexivity.
    + symmetry. apply Z.compare_lt_iff. lia.
    + symmetry. apply Z.compare_gt_iff. lia.
    + apply ival_compare; assumption.
Qed.

(** ** [binary_round_aux], step by step *)

Lemma shr_spec mrs e n :
  0 <= shr_m mrs ->
  snd (shr mrs e n) = e + Z.max n 0 /\
  shr_m (fst (shr mrs e n)) = shr_m mrs / 2 ^ Z.max n 0 /\
  exact_rec (fst (shr mrs e n)) =
    exact_rec mrs && (shr_m mrs mod 2 ^ Z.max n 0 =? 0).
Proof.
  intros Hm. destruct n as [|p|p]; cbn [shr fst snd].
  - rewrite Z.max_id. cbn [Z.pow]. rewrite Z.div_1_r, Z.mod_1_r, Z.add_0_r.
    cbn [Z.eqb]. rewrite andb_true_r. auto.
  - rewrite Z.max_l by lia. split; [reflexivity|]. apply shr_pos_spec; assumption.
  - rewrite Z.max_r by lia. cbn [Z.pow]. rewrite Z.div_1_r, Z.mod_1_r, Z.add_0_r.
    cbn [Z.eqb]. rewrite andb_true_r. auto.
Qed.

Lemma shr_record_of_loc_m m l : shr_m (shr_record_of_loc m l) = m.
Proof. destruct l as [|[]]; reflexivity. Qed.

Lemma shr_record_of_loc_exact m : exact_rec (shr_record_of_loc m loc_Exact) = true.
Proof. reflexivity. Qed.

Lemma binary_round_aux_spec s m e l :
  0 <= m ->
  let n1 := Z.max (fexp (Zdigits2 m + e) - e) 0 in
  exists m3,
    m / 2 ^ n1 <= m3 <= m / 2 ^ n1 + 1 /\
    (l = loc_Exact -> m mod 2 ^ n1 = 0 -> m3 = m / 2 ^ n1) /\
    binary_round_aux prec emax s m e l = round_result s m3 (e + n1).
Proof.
  intros Hm n1. unfold binary_round_aux, shr_fexp.
  pose proof (shr_spec (shr_record_of_loc m l) e (fexp (Zdigits2 m + e) - e)) as H1.
  rewrite shr_record_of_loc_m in H1. specialize (H1 Hm).
  destruct (shr (shr_record_of_loc m l) e (fexp (Zdigits2 m + e) - e)) as [mrs' e'].
  cbn [fst snd] in H1. destruct H1 as (He' & Hm' & Hx'). fold n1 in He', Hm', Hx'.
  set (m3 := round_nearest_even (shr_m mrs') (loc_of_shr_record mrs')).
  assert (Hpos : 0 < 2 ^ n1) by (apply pow2_pos; lia).
  assert (H3 : m / 2 ^ n1 <= m3 <= m / 2 ^ n1 + 1).
  { unfold m3. rewrite <- Hm'. apply round_nearest_even_bounds. }
  assert (H0 : 0 <= m3).
  { pose proof (Z.div_pos m (2 ^ n1) Hm Hpos). lia. }
  exists m3. split; [exact H3|]. split.
  - intros -> Hmod. unfold m3. rewrite <- Hm'.
    apply round_nearest_even_exact. rewrite Hx'.
    rewrite shr_record_of_loc_exact. rewrite Hmod. reflexivity.
  - pose proof (shr_spec (shr_record_of_loc m3 loc_Exact) e'
                  (fexp (Zdigits2 m3 + e') - e')) as H2.
    rewrite shr_record_of_loc_m in H2. specialize (H2 H0).
    destruct (shr (shr_record_of_loc m3 loc_Exact) e' (fexp (Zdigits2 m3 + e') - e'))
      as [mrs'' e''].
    cbn [fst snd] in H2. destruct H2 as (He'' & Hm'' & _).
    unfold round_result. rewrite <- He'. rewrite Hm'', He''.
    reflexivity.
Qed.

(** ** [binary_round] of an aligned sum *)

Lemma digits2_shift m d :
  Zpos (digits2_pos (Pos.iter xO m d)) = Zpos (digits2_pos m) + Zpos d.
Proof.
  apply digits2_unique. rewrite pos_iter_xO.
  pose proof (digits2_bounds m) as [Hl Hu].
  assert (0 < Zpos (digits2_pos m)) by lia.
  pose proof (pow2_pos (Zpos d) ltac:(lia)).
  replace (Zpos (digits2_pos m) + Zpos d - 1) with ((Zpos (digits2_pos m) - 1) + Zpos d) by lia.
  rewrite (pow2_split (Zpos (digits2_pos m) - 1) (Zpos d)) by lia.
  rewrite (pow2_split (Zpos (digits2_pos m)) (Zpos d)) by lia.
  split.
  - apply Z.mul_le_mono_nonneg_r; lia.
  - apply Zmult_lt_compat_r; lia.
Qed.

Lemma round_result_exact s m e :
  fexp (Zpos (digits2_pos m) + e) = e ->
  round_result s (Zpos m) e =
    if e <=? 971 then S754_finite s m e else S754_infinity s.
Proof.
  intros Hc. unfold round_result. cbn [Zdigits2]. rewrite Hc.
  rewrite Z.sub_diag. cbn [Z.max Z.compare]. cbn [Z.pow].
  rewrite Z.div_1_r, Z.add_0_r. reflexivity.
Qed.

(** The mantissa [2^53] produced by a carry is renormalised. *)
Lemma round_result_carry s e :
  -1074 <= e ->
  round_result s (2 ^ 53) e =
    if e + 1 <=? 971 then S754_finite s (2 ^ 52)%positive (e + 1)
    else S754_infinity s.
Proof.
  intros He. unfold round_result.
  change (Zdigits2 (2 ^ 53)) with 54.
  rewrite fexp_eq. replace (Z.max (54 + e - 53) (-1074) - e) with 1 by lia.
  reflexivity.
Qed.

Lemma binary_round_shape s M ez :
  -1074 <= ez ->
  exists m4 e4,
    canonical m4 e4 = true /\
    fexp (Zpos (digits2_pos M) + ez) <= e4 /\
    binary_round prec emax s M ez =
      (if e4 <=? 971 then S754_finite s m4 e4 else S754_infinity s) /\
    (grid M ez | ival m4 e4) /\
    ival M ez - grid M ez < ival m4 e4 < ival M ez + grid M ez.
Proof.
  intros Hez. unfold grid, binary_round, shl_align.
  remember (Zpos (digits2_pos M) + ez) as k eqn:Hk0.
  remember (fexp k) as E eqn:HE0.
  assert (HE : -1074 <= E) by (rewrite HE0, fexp_eq; lia).
  assert (HG : 0 < 2 ^ (E + 1074)) by (apply pow2_pos; lia).
  destruct (Z_le_gt_dec E ez) as [Hle|Hgt].
  - (* the sum is representable as it stands *)
    assert (Hal : exists M', Zpos M' * 2 ^ (E + 1074) = ival M ez /\
              Zpos (digits2_pos M') + E = k /\
              (match E - ez with
               | Zneg d => (Pos.iter xO M d, E)
               | _ => (M, ez)
               end) = (M', E)).
    { destruct (E - ez) as [|d|d] eqn:Hd; try lia.
      - exists M. assert (Heq : ez = E) by lia. rewrite <- Heq.
        unfold ival. rewrite Hk0. auto.
      - exists (Pos.iter xO M d). split; [|split; [|reflexivity]].
        + rewrite pos_iter_xO. unfold ival.
          replace (ez + 1074) with (Zpos d + (E + 1074)) by lia.
          rewrite (pow2_split (Zpos d) (E + 1074)) by lia. ring.
        + rewrite digits2_shift. lia. }
    destruct Hal as (M' & HV & Hk & ->).
    exists M', E. split; [|split; [|split; [|split]]].
    + unfold canonical_mantissa. rewrite Hk, <- HE0. apply Z.eqb_refl.
    + lia.
    + destruct (binary_round_aux_spec s (Zpos M') E loc_Exact ltac:(lia))
        as (m3 & _ & Hex & ->).
      cbn [Zdigits2] in Hex. rewrite Hk, <- HE0 in Hex.
      rewrite Z.sub_diag in Hex. cbn [Z.max Z.compare Z.pow] in Hex.
      rewrite Z.div_1_r in Hex. rewrite (Hex eq_refl (Z.mod_1_r _)).
      cbn [Zdigits2]. rewrite Hk, <- HE0. rewrite Z.sub_diag.
      cbn [Z.max Z.compare]. rewrite Z.add_0_r.
      apply round_result_exact. rewrite Hk. auto.
    + unfold ival at 1. exists (Zpos M'). reflexivity.
    + change (ival M' E) with (Zpos M' * 2 ^ (E + 1074)). rewrite HV. lia.
  - (* low-order bits are shifted out and the mantissa is rounded *)
    assert (Hsh : (match E - ez with
               | Zneg d => (Pos.iter xO M d, E)
               | _ => (M, ez)
               end) = (M, ez)).
    { destruct (E - ez) eqn:Hd; try lia; reflexivity. }
    rewrite Hsh.
    assert (HEk : E = k - 53) by (rewrite HE0, fexp_eq in *; lia).
    remember (E - ez) as n1 eqn:Hn0. assert (Hn1 : 0 < n1) by lia.
    assert (HdM : Zpos (digits2_pos M) = n1 + 53) by lia.
    destruct (binary_round_aux_spec s (Zpos M) ez loc_Exact ltac:(lia))
      as (m3 & Hm3 & Hex & ->).
    cbn [Zdigits2] in Hm3, Hex |- *. rewrite <- Hk0, <- HE0, <- Hn0 in Hm3, Hex |- *.
    rewrite Z.max_l in Hm3, Hex |- * by lia.
    replace (ez + n1) with E by lia.
    specialize (Hex eq_refl).
    pose proof (pow2_pos n1 ltac:(lia)) as Hp1.
    pose proof (digits2_bounds M) as [HMl HMu]. rewrite HdM in HMl, HMu.
    replace (n1 + 53 - 1) with (52 + n1) in HMl by lia.
    rewrite (Z.add_comm n1 53) in HMu.
    rewrite (pow2_split 52 n1) in HMl by lia.
    rewrite (pow2_split 53 n1) in HMu by lia.
    pose proof (Z.div_mod (Zpos M) (2 ^ n1) ltac:(lia)) as Hdm.
    pose proof (Z.mod_pos_bound (Zpos M) (2 ^ n1) Hp1) as Hrb.
    revert Hm3 Hex Hdm Hrb.
    generalize (Zpos M / 2 ^ n1) (Zpos M mod 2 ^ n1). intros m2 rem Hm3 Hex Hdm Hrb.
    assert (Hm2 : 2 ^ 52 <= m2 < 2 ^ 53).
    { split.
      - destruct (Z_lt_le_dec m2 (2 ^ 52)) as [Hc|]; [|assumption].
        assert (2 ^ n1 * (m2 + 1) <= 2 ^ n1 * 2 ^ 52)
          by (apply Z.mul_le_mono_nonneg_l; lia). lia.
      - destruct (Z_lt_le_dec m2 (2 ^ 53)) as [|Hc]; [assumption|].
        assert (2 ^ n1 * 2 ^ 53 <= 2 ^ n1 * m2)
          by (apply Z.mul_le_mono_nonneg_l; lia). lia. }
    (* the value in units of the low bit of the input *)
    assert (HGu : 2 ^ (E + 1074) = 2 ^ n1 * 2 ^ (ez + 1074)).
    { replace (E + 1074) with (n1 + (ez + 1074)) by lia.
      apply pow2_split; lia. }
    pose proof (pow2_pos (ez + 1074) ltac:(lia)) as Hpu.
    assert (Hsand : forall R, R = m3 * 2 ^ (E + 1074) ->
              ival M ez - 2 ^ (E + 1074) < R < ival M ez + 2 ^ (E + 1074)).
    { intros R ->. unfold ival. rewrite HGu. rewrite Hdm.
      set (u := 2 ^ (ez + 1074)) in *. set (w := 2 ^ n1) in *.
      assert (Hrem : m3 = m2 \/ (m3 = m2 + 1 /\ 0 < rem)).
      { destruct (Z.eq_dec m3 m2) as [|Hne]; [left; assumption|right].
        split; [lia|]. destruct (Z.eq_dec rem 0) as [Hr0|]; [|lia].
        specialize (Hex Hr0). lia. }
      replace (m3 * (w * u)) with ((m3 * w) * u) by ring.
      replace ((w * m2 + rem) * u - w * u) with ((w * m2 + rem - w) * u) by ring.
      replace ((w * m2 + rem) * u + w * u) with ((w * m2 + rem + w) * u) by ring.
      split; apply Zmult_lt_compat_r; lia. }
    destruct (Z.eq_dec m3 (2 ^ 53)) as [Hc|Hnc].
    + subst m3. exists (2 ^ 52)%positive, (E + 1).
      split; [|split; [|split; [|split]]].
      * unfold canonical_mantissa. change (Zpos (digits2_pos (2 ^ 52))) with 53.
        rewrite fexp_eq. apply Z.eqb_eq. lia.
      * lia.
      * apply round_result_carry. lia.
      * exists (2 ^ 53). unfold ival.
        replace (E + 1 + 1074) with (1 + (E + 1074)) by lia.
        rewrite (pow2_split 1 (E + 1074)) by lia.
        change (Zpos (2 ^ 52)) with (2 ^ 52). change (2 ^ 53) with (2 ^ 52 * 2 ^ 1). ring.
      * apply Hsand. unfold ival.
        replace (E + 1 + 1074) with (1 + (E + 1074)) by lia.
        rewrite (pow2_split 1 (E + 1074)) by lia.
        change (Zpos (2 ^ 52)) with (2 ^ 52). change (2 ^ 53) with (2 ^ 52 * 2 ^ 1). ring.
    + destruct m3 as [|p3|p3]; try lia.
      assert (Hd3 : Zpos (digits2_pos p3) = 53).
      { apply digits2_unique. change (53 - 1) with 52. lia. }
      exists p3, E. split; [|split; [|split; [|split]]].
      * unfold canonical_mantissa. rewrite Hd3. rewrite fexp_eq. apply Z.eqb_eq. lia.
      * lia.
      * apply round_result_exact. rewrite Hd3, fexp_eq. lia.
      * exists (Zpos p3). reflexivity.
      * apply Hsand. reflexivity.
Qed.

(** ** Rounded results are well-formed doubles *)

Lemma Zdigits2_unique n d : 2 ^ (d - 1) <= n < 2 ^ d -> 0 < n -> Zdigits2 n = d.
Proof.
  intros H Hn. destruct n as [|p|p]; try lia. cbn [Zdigits2].
  apply digits2_unique. assumption.
Qed.

Lemma Zdigits2_pos n : 0 < n -> 0 < Zdigits2 n.
Proof. destruct n; cbn [Zdigits2]; lia. Qed.

Lemma Zdigits2_div_pow m n :
  0 < m -> 0 <= n -> n < Zdigits2 m ->
  Zdigits2 (m / 2 ^ n) = Zdigits2 m - n /\ 0 < m / 2 ^ n.
Proof.
  intros Hm Hn Hlt.
  pose proof (Zdigits2_bounds m Hm) as [Hl Hu].
  pose proof (pow2_pos n Hn) as Hp.
  replace (Zdigits2 m - 1) with ((Zdigits2 m - n - 1) + n) in Hl by lia.
  replace (Zdigits2 m) with ((Zdigits2 m - n) + n) in Hu by lia.
  rewrite pow2_split in Hl by lia. rewrite pow2_split in Hu by lia.
  assert (Hlo : 2 ^ (Zdigits2 m - n - 1) <= m / 2 ^ n)
    by (apply Z.div_le_lower_bound; lia).
  assert (Hhi : m / 2 ^ n < 2 ^ (Zdigits2 m - n))
    by (apply Z.div_lt_upper_bound; lia).
  pose proof (pow2_pos (Zdigits2 m - n - 1) ltac:(lia)).
  split; [|lia]. apply Zdigits2_unique; [|lia]. split; assumption.
Qed.

Lemma Zdigits2_div_small m n :
  0 <= m -> 0 <= n -> Zdigits2 m <= n -> m / 2 ^ n = 0.
Proof.
  intros Hm Hn Hle. destruct (Z.eq_dec m 0) as [->|Hne].
  - apply Z.div_0_l. pose proof (pow2_pos n Hn). lia.
  - pose proof (Zdigits2_bounds m ltac:(lia)) as [_ Hu].
    pose proof (Zdigits2_nonneg m).
    assert (2 ^ Zdigits2 m <= 2 ^ n) by (apply Z.pow_le_mono_r; lia).
    apply Z.div_small. lia.
Qed.

Lemma Zdigits2_succ m : 0 <= m -> Zdigits2 (m + 1) <= Zdigits2 m + 1.
Proof.
  intros Hm. destruct (Z.eq_dec m 0) as [->|Hne]; [cbn; lia|].
  pose proof (Zdigits2_bounds m ltac:(lia)) as [_ Hu].
  pose proof (Zdigits2_nonneg m).
  apply Zdigits2_lt_pow; [|lia].
  replace (Zdigits2 m + 1) with (Z.succ (Zdigits2 m)) by lia.
  rewrite Z.pow_succ_r by lia. lia.
Qed.

Lemma binary_round_aux_valid s m e l :
  0 <= m -> e <= fexp (Zdigits2 m + e) ->
  rounded s (fexp (Zdigits2 m + e) + 1) (binary_round_aux prec emax s m e l).
Proof.
  intros Hm Hal.
  destruct (binary_round_aux_spec s m e l Hm) as (m3 & Hm3 & _ & ->).
  remember (fexp (Zdigits2 m + e)) as E eqn:HE0.
  rewrite Z.max_l in Hm3 |- * by lia.
  replace (e + (E - e)) with E by lia.
  remember (E - e) as n1 eqn:Hn0.
  assert (Hn1 : 0 <= n1) by lia.
  pose proof (pow2_pos n1 Hn1) as Hp1.
  pose proof (Z.div_pos m (2 ^ n1) Hm Hp1) as Hm2.
  remember (m / 2 ^ n1) as m2 eqn:Hm20.
  (* the truncated mantissa fits the format *)
  assert (F : fexp (Zdigits2 m2 + E) <= E /\
              (0 < m2 -> fexp (Zdigits2 m2 + E) = E) /\
              (m2 = 0 -> E = -1074)).
  { destruct (Z_lt_le_dec n1 (Zdigits2 m)) as [Hlt|Hge].
    - assert (0 < m) by (destruct m; cbn [Zdigits2] in Hlt; lia).
      destruct (Zdigits2_div_pow m n1 ltac:(lia) Hn1 Hlt) as [Hd Hpos].
      rewrite <- Hm20 in Hd, Hpos.
      replace (Zdigits2 m2 + E) with (Zdigits2 m + e) by lia.
      rewrite <- HE0. repeat split; lia.
    - pose proof (Zdigits2_div_small m n1 Hm Hn1 Hge) as Hz.
      rewrite <- Hm20 in Hz. rewrite Hz. cbn [Zdigits2].
      pose proof (Zdigits2_nonneg m).
      assert (E = -1074) by (rewrite HE0, fexp_eq in *; lia).
      rewrite fexp_eq. repeat split; lia. }
  destruct F as (F1 & F2 & F3).
  unfold round_result.
  destruct (Z.eq_dec m3 0) as [->|Hne3].
  { rewrite Z.div_0_l by (apply Z.pow_nonzero; lia). constructor. }
  assert (H3 : 0 < m3) by lia.
  remember (Zdigits2 m3) as d3 eqn:Hd3.
  assert (Hd3u : d3 <= Zdigits2 m2 + 1).
  { rewrite Hd3. etransitivity; [|apply (Zdigits2_succ m2 Hm2)].
    apply Zdigits2_mono. lia. }
  assert (Hd3l : Zdigits2 m2 <= d3).
  { rewrite Hd3. apply Zdigits2_mono. lia. }
  remember (fexp (d3 + E)) as E3 eqn:HE3.
  assert (HEE : E <= E3 <= E + 1).
  { split.
    - destruct (Z.eq_dec m2 0) as [Hz|Hnz].
      + rewrite (F3 Hz), HE3, fexp_eq. lia.
      + rewrite <- (F2 ltac:(lia)), HE3. apply fexp_mono. lia.
    - rewrite fexp_eq in F1. rewrite HE3, fexp_eq. lia. }
  destruct (Z.eq_dec E3 E) as [Heq|Hneq].
  - rewrite Heq, Z.sub_diag. cbn [Z.max Z.compare Z.pow].
    rewrite Z.div_1_r, Z.add_0_r.
    destruct m3 as [|p3|p3]; try lia.
    destruct (Z.leb_spec E 971) as [Hb|Hb].
    + constructor; [|lia]. unfold bounded, canonical_mantissa.
      cbn [Zdigits2] in Hd3. rewrite <- Hd3, <- HE3, Heq, Z.eqb_refl.
      apply Z.leb_le. exact Hb.
    + constructor. lia.
  - assert (HE31 : E3 = E + 1) by lia. rewrite HE31.
    replace (E + 1 - E) with 1 by lia. cbn [Z.max Z.compare].
    assert (Hd54 : d3 = 54) by (rewrite HE3, fexp_eq in HE31; rewrite HE0, fexp_eq in *; lia).
    destruct (Zdigits2_div_pow m3 1 H3 ltac:(lia) ltac:(lia)) as [Hd4 Hpos4].
    destruct (m3 / 2 ^ 1) as [|p4|p4] eqn:Hq; try lia.
    destruct (Z.leb_spec (E + 1) 971) as [Hb|Hb].
    + constructor; [|lia]. unfold bounded, canonical_mantissa.
      cbn [Zdigits2] in Hd4. rewrite Hd4, <- Hd3, Hd54.
      apply andb_true_iff. split; [|apply Z.leb_le; exact Hb].
      apply Z.eqb_eq. rewrite fexp_eq. rewrite HE3, fexp_eq in HE31. lia.
    + constructor. lia.
Qed.

(** ** A rounded value against a representable bound *)

Lemma pow2_lt_inv a b : 0 <= b -> 2 ^ a < 2 ^ b -> a < b.
Proof.
  intros Hb H. destruct (Z_lt_le_dec a b) as [|Hge]; [assumption|].
  assert (2 ^ b <= 2 ^ a) by (apply Z.pow_le_mono_r; lia). lia.
Qed.

Lemma multiple_lt_succ G a b : 0 < G -> (G | a) -> (G | b) -> a < b + G -> a <= b.
Proof.
  intros HG [x ->] [y ->] H.
  assert (x < y + 1).
  { destruct (Z_lt_le_dec x (y + 1)) as [|Hge]; [assumption|].
    assert ((y + 1) * G <= x * G) by (apply Z.mul_le_mono_nonneg_r; lia). lia. }
  apply Z.mul_le_mono_nonneg_r; lia.
Qed.

Lemma ival_grid_divide m e E : -1074 <= E -> E <= e -> (2 ^ (E + 1074) | ival m e).
Proof.
  intros HE Hle. unfold ival. exists (Zpos m * 2 ^ (e - E)).
  replace (e + 1074) with ((e - E) + (E + 1074)) by lia.
  rewrite (pow2_split (e - E) (E + 1074)) by lia. ring.
Qed.

Lemma digits_le_of_ival m1 e1 m2 e2 :
  -1074 <= e1 -> -1074 <= e2 -> ival m1 e1 <= ival m2 e2 ->
  Zpos (digits2_pos m1) + e1 <= Zpos (digits2_pos m2) + e2.
Proof.
  intros H1 H2 Hle.
  pose proof (ival_bounds m1 e1 H1) as [Hl _].
  pose proof (ival_bounds m2 e2 H2) as [_ Hu].
  assert (0 < Zpos (digits2_pos m2)) by lia.
  assert (Zpos (digits2_pos m1) + e1 + 1073 < Zpos (digits2_pos m2) + e2 + 1074)
    by (apply pow2_lt_inv; lia).
  lia.
Qed.

Lemma bounded_intro m e :
  canonical m e = true -> e <= 971 -> bounded prec emax m e = true.
Proof.
  intros Hc He. unfold bounded. rewrite Hc. apply Z.leb_le. exact He.
Qed.

Section RoundToNearest.
Variables (s : bool) (M : positive) (ez : Z).
Hypothesis Hez : -1074 <= ez.

Lemma binary_round_cases :
  binary_round prec emax s M ez = S754_infinity s \/
  exists m4 e4, binary_round prec emax s M ez = S754_finite s m4 e4 /\ bounded prec emax m4 e4 = true.
Proof.
  destruct (binary_round_shape s M ez Hez) as (m4 & e4 & Hc & _ & Hr & _).
  rewrite Hr. destruct (Z.leb_spec e4 971) as [Hb|Hb]; [right|left; reflexivity].
  exists m4, e4. split; [reflexivity|]. apply bounded_intro; assumption.
Qed.

Lemma binary_round_le mx ex :
  bounded prec emax mx ex = true -> ival M ez <= ival mx ex ->
  exists m4 e4, binary_round prec emax s M ez = S754_finite s m4 e4 /\ bounded prec emax m4 e4 = true /\
                ival m4 e4 <= ival mx ex.
Proof.
  intros Hb Hle. apply bounded_facts in Hb as [Hcx Hex].
  destruct (binary_round_shape s M ez Hez) as (m4 & e4 & Hc & HE4 & Hr & Hdiv & _ & Hup).
  pose proof (canonical_facts _ _ Hcx) as (Hfx & Hminx & _).
  assert (HE : fexp (Zpos (digits2_pos M) + ez) <= ex).
  { rewrite <- Hfx. apply fexp_mono. apply digits_le_of_ival; assumption. }
  unfold grid in *.
  remember (fexp (Zpos (digits2_pos M) + ez)) as E eqn:HE0.
  assert (HEmin : -1074 <= E) by (rewrite HE0, fexp_eq; lia).
  assert (HR : ival m4 e4 <= ival mx ex).
  { apply (multiple_lt_succ (2 ^ (E + 1074))).
    - apply pow2_pos; lia.
    - assumption.
    - apply ival_grid_divide; assumption.
    - lia. }
  assert (He4 : e4 <= ex).
  { destruct (Z_le_gt_dec e4 ex) as [|Hgt]; [assumption|].
    pose proof (ival_lt_exp mx ex m4 e4 Hcx Hc ltac:(lia)). lia. }
  exists m4, e4. rewrite Hr.
  assert (Hl : (e4 <=? 971) = true) by (apply Z.leb_le; lia).
  rewrite Hl. split; [reflexivity|]. split; [|assumption].
  apply bounded_intro; [assumption|lia].
Qed.

Lemma binary_round_ge mx ex :
  bounded prec emax mx ex = true -> ival mx ex <= ival M ez ->
  binary_round prec emax s M ez = S754_infinity s \/
  exists m4 e4, binary_round prec emax s M ez = S754_finite s m4 e4 /\ bounded prec emax m4 e4 = true /\
                ival mx ex <= ival m4 e4.
Proof.
  intros Hb Hle. apply bounded_facts in Hb as [Hcx Hex].
  destruct (binary_round_shape s M ez Hez) as (m4 & e4 & Hc & HE4 & Hr & Hdiv & Hlo & _).
  pose proof (canonical_facts _ _ Hcx) as (Hfx & Hminx & _).
  pose proof (digits_le_of_ival mx ex M ez Hminx Hez Hle) as Hk.
  unfold grid in *.
  remember (Zpos (digits2_pos M) + ez) as k eqn:Hk0.
  remember (Zpos (digits2_pos mx) + ex) as kx eqn:Hkx0.
  remember (fexp k) as E eqn:HE0.
  assert (HEmin : -1074 <= E) by (rewrite HE0, fexp_eq; lia).
  assert (HEx : ex <= E) by (rewrite <- Hfx, HE0; apply fexp_mono; lia).
  pose proof (pow2_pos (E + 1074) ltac:(lia)) as HG.
  assert (HR : ival mx ex <= ival m4 e4).
  { destruct (Z.eq_dec ex E) as [Heq|Hne].
    - apply (multiple_lt_succ (2 ^ (E + 1074))); try assumption.
      + apply ival_grid_divide; lia.
      + lia.
    - (* the bound lies in a lower binade than the sum *)
      assert (HEk : E = k - 53) by (rewrite HE0, fexp_eq in *; lia).
      assert (Hkk : kx <= k - 1).
      { destruct (Z_le_gt_dec kx (k - 1)) as [|Hgt]; [assumption|].
        assert (kx = k) by lia. rewrite fexp_eq in Hfx. rewrite HE0, fexp_eq in HEx. lia. }
      pose proof (ival_bounds mx ex Hminx) as [_ Hxu].
      pose proof (ival_bounds M ez Hez) as [HVl _].
      rewrite <- Hkx0 in Hxu. rewrite <- Hk0 in HVl.
      assert (2 ^ (kx + 1074) <= 2 ^ (k + 1073)) by (apply Z.pow_le_mono_r; lia).
      replace (k + 1073) with (52 + (E + 1074)) in * by lia.
      rewrite (pow2_split 52 (E + 1074)) in * by lia.
      destruct Hdiv as [a Ha]. rewrite Ha in *.
      assert (2 ^ 52 - 1 < a).
      { destruct (Z_lt_le_dec (2 ^ 52 - 1) a) as [|Hge]; [assumption|].
        assert (a * 2 ^ (E + 1074) <= (2 ^ 52 - 1) * 2 ^ (E + 1074))
          by (apply Z.mul_le_mono_nonneg_r; lia).
        lia. }
      assert (2 ^ 52 * 2 ^ (E + 1074) <= a * 2 ^ (E + 1074))
        by (apply Z.mul_le_mono_nonneg_r; lia).
      lia. }
  rewrite Hr. destruct (Z.leb_spec e4 971) as [Hl|Hl]; [right|left; reflexivity].
  exists m4, e4. split; [reflexivity|]. split; [|assumption].
  apply bounded_intro; assumption.
Qed.

Lemma binary_round_overflow :
  huge <= ival M ez -> binary_round prec emax s M ez = S754_infinity s.
Proof.
  intros Hh.
  destruct (binary_round_shape s M ez Hez) as (m4 & e4 & Hc & HE4 & Hr & _).
  pose proof (ival_bounds M ez Hez) as [_ Hu].
  assert (2098 < Zpos (digits2_pos M) + ez + 1074).
  { apply pow2_lt_inv; [lia|]. fold huge. lia. }
  rewrite fexp_eq in HE4.
  rewrite Hr. destruct (Z.leb_spec e4 971); [lia|reflexivity].
Qed.
End RoundToNearest.

(** ** Faithful rounding *)

Lemma huge_pos : 0 < huge.
Proof. unfold huge. apply pow2_pos. lia. Qed.

Lemma faithful_exact r : good r -> faithful (rank r) r.
Proof. intros Hr. split; [assumption|]. intros z _. split; auto. Qed.

Lemma binary_normalize_faithful Ms ez :
  -1074 <= ez ->
  faithful (Ms * 2 ^ (ez + 1074)) (binary_normalize prec emax Ms ez false).
Proof.
  intros Hez. pose proof huge_pos as Hh.
  destruct Ms as [|M|M]; cbn [binary_normalize].
  - rewrite Z.mul_0_l. apply (faithful_exact (S754_zero false)). split; reflexivity.
  - change (Zpos M * 2 ^ (ez + 1074)) with (ival M ez).
    pose proof (ival_pos M ez Hez) as HV.
    pose proof (binary_round_cases false M ez Hez) as Hcases.
    split.
    { destruct Hcases as [->|(m4 & e4 & -> & Hb)]; split; auto. }
    intros z [Hwz Hnz].
    destruct z as [sz|sz| |sz mz ez']; try discriminate;
      unfold wf in Hwz; cbn [valid_binary] in Hwz; cbn [rank];
      try pose proof (ival_lt_huge _ _ Hwz) as Hzb;
      try destruct sz; cbn [cond_Zopp]; split; intros Hle;
      first
        [ lia
        | destruct Hcases as [->|(m4 & e4 & -> & Hb)]; cbn [rank cond_Zopp];
          [lia | pose proof (ival_lt_huge _ _ Hb); lia]
        | rewrite (binary_round_overflow false M ez Hez ltac:(lia));
          cbn [rank cond_Zopp]; lia
        | destruct (binary_round_le false M ez Hez mz ez' Hwz ltac:(lia))
            as (m4 & e4 & -> & _ & H4); cbn [rank cond_Zopp]; lia
        | destruct (binary_round_ge false M ez Hez mz ez' Hwz ltac:(lia))
            as [->|(m4 & e4 & -> & _ & H4)]; cbn [rank cond_Zopp]; lia ].
  - replace (Zneg M * 2 ^ (ez + 1074)) with (- ival M ez)
      by (unfold ival; rewrite <- Pos2Z.opp_pos; ring).
    pose proof (ival_pos M ez Hez) as HV.
    pose proof (binary_round_cases true M ez Hez) as Hcases.
    split.
    { destruct Hcases as [->|(m4 & e4 & -> & Hb)]; split; auto. }
    intros z [Hwz Hnz].
    destruct z as [sz|sz| |sz mz ez']; try discriminate;
      unfold wf in Hwz; cbn [valid_binary] in Hwz; cbn [rank];
      try pose proof (ival_lt_huge _ _ Hwz) as Hzb;
      try destruct sz; cbn [cond_Zopp]; split; intros Hle;
      first
        [ lia
        | destruct Hcases as [->|(m4 & e4 & -> & Hb)]; cbn [rank cond_Zopp];
          [lia | pose proof (ival_lt_huge _ _ Hb); lia]
        | rewrite (binary_round_overflow true M ez Hez ltac:(lia));
          cbn [rank cond_Zopp]; lia
        | destruct (binary_round_le true M ez Hez mz ez' Hwz ltac:(lia))
            as (m4 & e4 & -> & _ & H4); cbn [rank cond_Zopp]; lia
        | destruct (binary_round_ge true M ez Hez mz ez' Hwz ltac:(lia))
            as [->|(m4 & e4 & -> & _ & H4)]; cbn [rank cond_Zopp]; lia ].
Qed.

(** ** Addition and subtraction round faithfully *)

Lemma shl_align_val m e ez :
  -1074 <= ez -> ez <= e ->
  Zpos (fst (shl_align m e ez)) * 2 ^ (ez + 1074) = ival m e.
Proof.
  intros Hez Hle. unfold shl_align, ival.
  destruct (ez - e) as [|d|d] eqn:Hd; cbn [fst]; try lia.
  - replace ez with e by lia. reflexivity.
  - rewrite pos_iter_xO.
    replace (e + 1074) with (Zpos d + (ez + 1074)) by lia.
    rewrite (pow2_split (Zpos d) (ez + 1074)) by lia. ring.
Qed.

Lemma cond_Zopp_mul s a u : cond_Zopp s a * u = cond_Zopp s (a * u).
Proof. destruct s; cbn [cond_Zopp]; ring. Qed.

Lemma wf_finite_min s m e : wf (S754_finite s m e) = true -> -1074 <= e.
Proof.
  unfold wf. cbn [valid_binary]. intros H.
  apply bounded_facts in H as [Hc _]. apply canonical_facts in Hc. lia.
Qed.

Lemma fadd_finite_faithful sx mx ex sy my ey :
  wf (S754_finite sx mx ex) = true -> wf (S754_finite sy my ey) = true ->
  faithful (rank (S754_finite sx mx ex) + rank (S754_finite sy my ey))
    (fadd (S754_finite sx mx ex) (S754_finite sy my ey)).
Proof.
  intros Hx Hy. apply wf_finite_min in Hx, Hy.
  unfold fadd. cbn [SFadd rank].
  rewrite <- (shl_align_val mx ex (Z.min ex ey)) by lia.
  rewrite <- (shl_align_val my ey (Z.min ex ey)) by lia.
  rewrite <- !cond_Zopp_mul, <- Z.mul_add_distr_r.
  apply binary_normalize_faithful. lia.
Qed.

Lemma fsub_finite_faithful sx mx ex sy my ey :
  wf (S754_finite sx mx ex) = true -> wf (S754_finite sy my ey) = true ->
  faithful (rank (S754_finite sx mx ex) - rank (S754_finite sy my ey))
    (fsub (S754_finite sx mx ex) (S754_finite sy my ey)).
Proof.
  intros Hx Hy. apply wf_finite_min in Hx, Hy.
  unfold fsub. cbn [SFsub rank].
  rewrite <- (shl_align_val mx ex (Z.min ex ey)) by lia.
  rewrite <- (shl_align_val my ey (Z.min ex ey)) by lia.
  rewrite <- !cond_Zopp_mul, <- Z.mul_sub_distr_r.
  apply binary_normalize_faithful. lia.
Qed.

Lemma good_zero s : good (S754_zero s).
Proof. split; reflexivity. Qed.

Lemma fadd_faithful x y :
  good x -> good y -> is_finite x = true -> is_finite y = true ->
  faithful (rank x + rank y) (fadd x y).
Proof.
  intros [Hx _] [Hy _] Fx Fy.
  destruct x as [sx| | |sx mx ex], y as [sy| | |sy my ey]; try discriminate.
  - destruct sx, sy; apply (faithful_exact (S754_zero _)); apply good_zero.
  - apply (faithful_exact (S754_finite sy my ey)). split; [assumption|reflexivity].
  - cbn [rank]. rewrite Z.add_0_r.
    apply (faithful_exact (S754_finite sx mx ex)). split; [assumption|reflexivity].
  - apply fadd_finite_faithful; assumption.
Qed.

Lemma fsub_faithful x y :
  good x -> good y -> is_finite x = true -> is_finite y = true ->
  faithful (rank x - rank y) (fsub x y).
Proof.
  intros [Hx _] [Hy _] Fx Fy.
  destruct x as [sx| | |sx mx ex], y as [sy| | |sy my ey]; try discriminate.
  - destruct sx, sy; apply (faithful_exact (S754_zero _)); apply good_zero.
  - cbn [rank]. replace (0 - cond_Zopp sy (ival my ey))
      with (rank (S754_finite (negb sy) my ey))
      by (destruct sy; cbn [rank negb cond_Zopp]; lia).
    apply (faithful_exact (S754_finite (negb sy) my ey)). split; [assumption|reflexivity].
  - cbn [rank]. rewrite Z.sub_0_r.
    apply (faithful_exact (S754_finite sx mx ex)). split; [assumption|reflexivity].
  - apply fsub_finite_faithful; assumption.
Qed.

Lemma fleb_rank x y : good x -> good y -> fleb x y = (rank x <=? rank y).
Proof.
  intros [Hx Nx] [Hy Ny]. unfold fleb, SFleb.
  rewrite (SFcompare_rank x y Hx Hy Nx Ny). unfold Z.leb.
  destruct (rank x ?= rank y); reflexivity.
Qed.

Lemma fltb_rank x y : good x -> good y -> fltb x y = (rank x <? rank y).
Proof.
  intros [Hx Nx] [Hy Ny]. unfold fltb, SFltb.
  rewrite (SFcompare_rank x y Hx Hy Nx Ny). unfold Z.ltb.
  destruct (rank x ?= rank y); reflexivity.
Qed.

Lemma fleb_nonnan x y : fleb x y = true -> is_nan x = false /\ is_nan y = false.
Proof.
  unfold fleb, SFleb.
  destruct x as [| | |], y as [| | |]; cbn [SFcompare is_nan];
    intros H; try discriminate; auto.
Qed.

Lemma fltb_nonnan x y : fltb x y = true -> is_nan x = false /\ is_nan y = false.
Proof.
  unfold fltb, SFltb.
  destruct x as [| | |], y as [| | |]; cbn [SFcompare is_nan];
    intros H; try discriminate; auto.
Qed.

Lemma rank_bounds x : wf x = true -> - huge <= rank x <= huge.
Proof.
  pose proof huge_pos. intros Hx.
  destruct x as [s|[|]| |[|] m e]; cbn [rank cond_Zopp]; try lia;
    unfold wf in Hx; cbn [valid_binary] in Hx; pose proof (ival_lt_huge _ _ Hx); lia.
Qed.

Lemma rank_finite x : wf x = true -> is_finite x = true -> - huge < rank x < huge.
Proof.
  pose proof huge_pos. intros Hx Fx.
  destruct x as [s|[|]| |[|] m e]; try discriminate; cbn [rank cond_Zopp]; try lia;
    unfold wf in Hx; cbn [valid_binary] in Hx; pose proof (ival_lt_huge _ _ Hx); lia.
Qed.

(** Adding a non-positive number never increases a float; adding a
    non-negative one never decreases it. *)
Lemma fadd_nonpos x y :
  good x -> good y -> rank y <= 0 -> rank x < huge ->
  good (fadd x y) /\ rank (fadd x y) <= rank x.
Proof.
  intros Gx Gy Hy Hx. pose proof huge_pos as Hh.
  destruct (is_finite x) eqn:Fx, (is_finite y) eqn:Fy.
  - destruct (fadd_faithful x y Gx Gy Fx Fy) as [Gr Hr].
    split; [assumption|]. apply (Hr x Gx). lia.
  - destruct Gx as [Wx Nx], Gy as [Wy Ny]. pose proof (rank_finite x Wx Fx).
    destruct x as [sx| | |sx mx ex], y as [sy|[|]| |sy my ey]; try discriminate;
      cbn [rank cond_Zopp] in *; try lia; unfold fadd; cbn [SFadd];
      (split; [split; reflexivity|]); cbn [rank cond_Zopp]; lia.
  - destruct Gx as [Wx Nx], Gy as [Wy Ny]. pose proof (rank_finite y Wy Fy).
    destruct x as [sx|[|]| |sx mx ex], y as [sy|sy| |sy my ey]; try discriminate;
      cbn [rank cond_Zopp] in *; try lia; unfold fadd; cbn [SFadd];
      (split; [split; reflexivity|]); cbn [rank cond_Zopp]; lia.
  - destruct Gx as [Wx Nx], Gy as [Wy Ny].
    destruct x as [sx|[|]| |sx mx ex], y as [sy|[|]| |sy my ey]; try discriminate;
      cbn [rank cond_Zopp] in *; try lia; unfold fadd; cbn [SFadd];
      (split; [split; reflexivity|]); cbn [rank cond_Zopp]; lia.
Qed.

Lemma fadd_nonneg x y :
  good x -> good y -> 0 <= rank y -> - huge < rank x ->
  good (fadd x y) /\ rank x <= rank (fadd x y).
Proof.
  intros Gx Gy Hy Hx. pose proof huge_pos as Hh.
  destruct (is_finite x) eqn:Fx, (is_finite y) eqn:Fy.
  - destruct (fadd_faithful x y Gx Gy Fx Fy) as [Gr Hr].
    split; [assumption|]. apply (Hr x Gx). lia.
  - destruct Gx as [Wx Nx], Gy as [Wy Ny]. pose proof (rank_finite x Wx Fx).
    destruct x as [sx| | |sx mx ex], y as [sy|[|]| |sy my ey]; try discriminate;
      cbn [rank cond_Zopp] in *; try lia; unfold fadd; cbn [SFadd];
      (split; [split; reflexivity|]); cbn [rank cond_Zopp]; lia.
  - destruct Gx as [Wx Nx], Gy as [Wy Ny]. pose proof (rank_finite y Wy Fy).
    destruct x as [sx|[|]| |sx mx ex], y as [sy|sy| |sy my ey]; try discriminate;
      cbn [rank cond_Zopp] in *; try lia; unfold fadd; cbn [SFadd];
      (split; [split; reflexivity|]); cbn [rank cond_Zopp]; lia.
  - destruct Gx as [Wx Nx], Gy as [Wy Ny].
    destruct x as [sx|[|]| |sx mx ex], y as [sy|[|]| |sy my ey]; try discriminate;
      cbn [rank cond_Zopp] in *; try lia; unfold fadd; cbn [SFadd];
      (split; [split; reflexivity|]); cbn [rank cond_Zopp]; lia.
Qed.

Lemma rounded_good s E r : rounded s E r -> good r.
Proof. intros [| |m e Hb _]; split; try reflexivity. exact Hb. Qed.

Lemma rounded_mono s E E' r : E <= E' -> rounded s E r -> rounded s E' r.
Proof. intros HE [| |m e Hb He]; constructor; try assumption; lia. Qed.

Lemma rounded_is_finite s E r : E <= 971 -> rounded s E r -> is_finite r = true.
Proof. intros HE [| |m e Hb He]; try reflexivity. lia. Qed.

Lemma rounded_sign E r : rounded false E r -> 0 <= rank r.
Proof.
  pose proof huge_pos.
  intros [| |m e Hb He]; cbn [rank cond_Zopp]; try lia.
  pose proof (ival_lt_huge _ _ Hb). lia.
Qed.

(** ** Closure under multiplication *)

Lemma digits2_mul_ge mx my :
  Zpos (digits2_pos mx) + Zpos (digits2_pos my) - 1 <= Zpos (digits2_pos (mx * my)).
Proof.
  pose proof (digits2_bounds mx) as [Hx _]. pose proof (digits2_bounds my) as [Hy _].
  assert (0 < Zpos (digits2_pos mx)) by lia. assert (0 < Zpos (digits2_pos my)) by lia.
  pose proof (pow2_pos (Zpos (digits2_pos mx) - 1) ltac:(lia)).
  pose proof (pow2_pos (Zpos (digits2_pos my) - 1) ltac:(lia)).
  assert (Hm : 2 ^ (Zpos (digits2_pos mx) - 1 + (Zpos (digits2_pos my) - 1)) <= Zpos (mx * my)).
  { rewrite pow2_split by lia. rewrite Pos2Z.inj_mul. apply Z.mul_le_mono_nonneg; lia. }
  pose proof (Zdigits2_ge_pow (Zpos (mx * my)) _ Hm ltac:(lia)) as Hd.
  cbn [Zdigits2] in Hd. lia.
Qed.

Lemma fmul_finite_rounded sx mx ex sy my ey :
  wf (S754_finite sx mx ex) = true -> wf (S754_finite sy my ey) = true ->
  exists E, rounded (xorb sx sy) E (fmul (S754_finite sx mx ex) (S754_finite sy my ey)).
Proof.
  intros Hx Hy. unfold wf in Hx, Hy. cbn [valid_binary] in Hx, Hy.
  apply bounded_facts in Hx as [Hcx _]. apply bounded_facts in Hy as [Hcy _].
  apply canonical_facts in Hcx as (_ & Hminx & Hdx & Hnx).
  apply canonical_facts in Hcy as (_ & Hminy & Hdy & Hny).
  unfold fmul. cbn [SFmul]. eexists. apply binary_round_aux_valid; [lia|].
  cbn [Zdigits2]. pose proof (digits2_mul_ge mx my) as Hd.
  assert (0 < Zpos (digits2_pos mx)) by lia. assert (0 < Zpos (digits2_pos my)) by lia.
  rewrite fexp_eq.
  destruct (Z.eq_dec ex (-1074)) as [Hex|Hex]; destruct (Z.eq_dec ey (-1074)) as [Hey|Hey];
    try specialize (Hnx ltac:(lia)); try specialize (Hny ltac:(lia)); lia.
Qed.

Lemma wf_fmul x y : wf x = true -> wf y = true -> wf (fmul x y) = true.
Proof.
  intros Hx Hy.
  destruct x as [sx|sx| |sx mx ex], y as [sy|sy| |sy my ey]; try reflexivity.
  destruct (fmul_finite_rounded sx mx ex sy my ey Hx Hy) as [E HE].
  apply (rounded_good _ _ _ HE).
Qed.

(** ** Closure under addition and subtraction, and signs *)

Lemma wf_fadd x y : wf x = true -> wf y = true -> wf (fadd x y) = true.
Proof.
  intros Hx Hy.
  destruct x as [sx|sx| |sx mx ex], y as [sy|sy| |sy my ey]; try reflexivity;
    try assumption; try (destruct sx, sy; reflexivity).
  apply (fadd_finite_faithful sx mx ex sy my ey Hx Hy).
Qed.

Lemma wf_fsub x y : wf x = true -> wf y = true -> wf (fsub x y) = true.
Proof.
  intros Hx Hy.
  destruct x as [sx|sx| |sx mx ex], y as [sy|sy| |sy my ey]; try reflexivity;
    try assumption; try (destruct sx, sy; reflexivity).
  apply (fsub_finite_faithful sx mx ex sy my ey Hx Hy).
Qed.

Lemma good_fneg x : good x -> good (SFopp x) /\ rank (SFopp x) = - rank x.
Proof.
  intros [Hx Nx]. destruct x as [s|s| |s m e]; try discriminate;
    (split; [split; [exact Hx|reflexivity]|]); cbn [SFopp rank];
    destruct s; cbn [negb cond_Zopp]; lia.
Qed.

(** Subtracting a non-negative number never increases a float, and the
    result stays above [-inf] when a finite number is subtracted from a
    non-negative one. *)
Lemma fsub_nonneg x y :
  good x -> good y -> 0 <= rank y -> rank x < huge ->
  good (fsub x y) /\ rank (fsub x y) <= rank x.
Proof.
  intros Gx Gy Hy Hx. pose proof huge_pos as Hh.
  destruct (is_finite x) eqn:Fx, (is_finite y) eqn:Fy.
  - destruct (fsub_faithful x y Gx Gy Fx Fy) as [Gr Hr].
    split; [assumption|]. apply (Hr x Gx). lia.
  - destruct Gx as [Wx Nx], Gy as [Wy Ny]. pose proof (rank_finite x Wx Fx).
    destruct x as [sx| | |sx mx ex], y as [sy|[|]| |sy my ey]; try discriminate;
      cbn [rank cond_Zopp] in *; try lia; unfold fsub; cbn [SFsub negb];
      (split; [split; reflexivity|]); cbn [rank cond_Zopp]; lia.
  - destruct Gx as [Wx Nx], Gy as [Wy Ny]. pose proof (rank_finite y Wy Fy).
    destruct x as [sx|[|]| |sx mx ex], y as [sy|sy| |sy my ey]; try discriminate;
      cbn [rank cond_Zopp] in *; try lia; unfold fsub; cbn [SFsub negb];
      (split; [split; reflexivity|]); cbn [rank cond_Zopp]; lia.
  - destruct Gx as [Wx Nx], Gy as [Wy Ny].
    destruct x as [sx|[|]| |sx mx ex], y as [sy|[|]| |sy my ey]; try discriminate;
      cbn [rank cond_Zopp] in *; try lia; unfold fsub; cbn [SFsub negb];
      (split; [split; reflexivity|]); cbn [rank cond_Zopp]; lia.
Qed.

Lemma fsub_above x y :
  good x -> good y -> 0 <= rank x -> is_finite y = true ->
  good (fsub x y) /\ - huge < rank (fsub x y).
Proof.
  intros Gx Gy Hx Fy. pose proof huge_pos as Hh.
  destruct (is_finite x) eqn:Fx.
  - destruct (fsub_faithful x y Gx Gy Fx Fy) as [Gr Hr].
    split; [assumption|].
    destruct (good_fneg y Gy) as [Gn Hn].
    pose proof (proj2 (Hr (SFopp y) Gn) ltac:(lia)).
    destruct Gy as [Wy _]. pose proof (rank_finite y Wy Fy). lia.
  - destruct Gx as [Wx Nx], Gy as [Wy Ny].
    destruct x as [sx|[|]| |sx mx ex], y as [sy|sy| |sy my ey]; try discriminate;
      cbn [rank cond_Zopp] in *; try lia; unfold fsub; cbn [SFsub negb];
      (split; [split; reflexivity|]); cbn [rank cond_Zopp]; lia.
Qed.

Lemma rank_zero_inv x : good x -> rank x = 0 -> exists s, x = S754_zero s.
Proof.
  pose proof huge_pos. intros [Wx Nx] Hr.
  destruct x as [s|[|]| |[|] m e]; try discriminate; cbn [rank cond_Zopp] in Hr; try lia;
    [exists s; reflexivity| |];
    unfold wf in Wx; cbn [valid_binary] in Wx; pose proof (ival_lt_huge _ _ Wx); lia.
Qed.

Lemma fsub_negative x y :
  good x -> good y -> rank x <= 0 -> 0 <= rank y -> rank x < 0 \/ 0 < rank y ->
  good (fsub x y) /\ rank (fsub x y) < 0.
Proof.
  intros Gx Gy Hx Hy Hs. pose proof huge_pos as Hh.
  destruct (Z.eq_dec (rank x) 0) as [Hz|Hnz].
  - destruct (rank_zero_inv x Gx Hz) as [s ->]. destruct Gy as [Wy Ny].
    destruct y as [sy|[|]| |[|] my ey]; try discriminate; cbn [rank cond_Zopp] in *; try lia;
      unfold fsub; cbn [SFsub negb]; (split; [split; [assumption || reflexivity|reflexivity]|]);
      cbn [rank cond_Zopp]; lia.
  - destruct (fsub_nonneg x y Gx Gy Hy ltac:(lia)) as [Gr Hr]. split; [assumption|lia].
Qed.

Lemma fadd_zero_l x : good x -> rank x <> 0 -> fadd (S754_zero false) x = x.
Proof.
  intros [Wx Nx] Hr. destruct x as [s|s| |s m e]; try discriminate; try reflexivity.
  cbn [rank] in Hr. lia.
Qed.

(** ** Division *)

Lemma fdiv_finite_rounded sx mx ex sy my ey :
  wf (S754_finite sx mx ex) = true -> wf (S754_finite sy my ey) = true ->
  rounded (xorb sx sy)
    (fexp (Zpos (digits2_pos mx) + ex - (Zpos (digits2_pos my) + ey) + 1) + 1)
    (fdiv (S754_finite sx mx ex) (S754_finite sy my ey)).
Proof.
  intros Hx Hy. unfold fdiv. cbn [SFdiv]. unfold SFdiv_core_binary. cbn [Zdigits2].
  remember (Zpos (digits2_pos mx)) as d1 eqn:Hd1.
  remember (Zpos (digits2_pos my)) as d2 eqn:Hd2.
  remember (d1 + ex - (d2 + ey)) as D eqn:HD.
  remember (Z.min (fexp D) (ex - ey)) as e' eqn:He'.
  remember (ex - ey - e') as sh eqn:Hsh.
  assert (Hsh0 : 0 <= sh) by lia.
  assert (He'D : e' <= fexp D) by lia.
  pose proof (pow2_pos sh Hsh0) as Hps.
  assert (Hm' : match sh with
                | Zpos _ => Z.shiftl (Zpos mx) sh
                | Z0 => Zpos mx
                | Zneg _ => 0
                end = Zpos mx * 2 ^ sh).
  { destruct sh as [|p|p]; try lia. apply Z.shiftl_mul_pow2. lia. }
  rewrite Hm'.
  destruct (Z.div_eucl (Zpos mx * 2 ^ sh) (Zpos my)) as [q r] eqn:Hdiv.
  assert (Hq : q = Zpos mx * 2 ^ sh / Zpos my) by (unfold Z.div; rewrite Hdiv; reflexivity).
  pose proof (digits2_bounds mx) as [Hxl Hxu]. rewrite <- Hd1 in Hxl, Hxu.
  pose proof (digits2_bounds my) as [Hyl Hyu]. rewrite <- Hd2 in Hyl, Hyu.
  assert (H1 : 0 < d1) by lia. assert (H2 : 0 < d2) by lia.
  assert (Hq0 : 0 <= q) by (rewrite Hq; apply Z.div_pos; lia).
  assert (Hlow : e' <= fexp (Zdigits2 q + e')).
  { destruct (Z_le_gt_dec 1 (d1 + sh - d2)) as [Hc|Hc].
    - assert (2 ^ (d1 + sh - d2 - 1) <= q).
      { rewrite Hq. apply Z.div_le_lower_bound; [lia|].
        pose proof (pow2_pos (d1 + sh - d2 - 1) ltac:(lia)).
        assert (Zpos my * 2 ^ (d1 + sh - d2 - 1) <= 2 ^ d2 * 2 ^ (d1 + sh - d2 - 1))
          by (apply Z.mul_le_mono_nonneg_r; lia).
        rewrite <- pow2_split in H0 by lia.
        replace (d2 + (d1 + sh - d2 - 1)) with ((d1 - 1) + sh) in H0 by lia.
        rewrite pow2_split in H0 by lia.
        assert (2 ^ (d1 - 1) * 2 ^ sh <= Zpos mx * 2 ^ sh)
          by (apply Z.mul_le_mono_nonneg_r; lia).
        lia. }
      pose proof (Zdigits2_ge_pow q _ H ltac:(lia)).
      etransitivity; [exact He'D|]. apply fexp_mono. lia.
    - pose proof (Zdigits2_nonneg q). rewrite !fexp_eq in *. lia. }
  assert (Hup : fexp (Zdigits2 q + e') <= fexp (D + 1)).
  { destruct (Z_le_gt_dec 0 (d1 + sh - d2 + 1)) as [Hc|Hc].
    - assert (q < 2 ^ (d1 + sh - d2 + 1)).
      { rewrite Hq. apply Z.div_lt_upper_bound; [lia|].
        pose proof (pow2_pos (d1 + sh - d2 + 1) ltac:(lia)).
        assert (2 ^ (d2 - 1) * 2 ^ (d1 + sh - d2 + 1) <= Zpos my * 2 ^ (d1 + sh - d2 + 1))
          by (apply Z.mul_le_mono_nonneg_r; lia).
        rewrite <- pow2_split in H0 by lia.
        replace (d2 - 1 + (d1 + sh - d2 + 1)) with (d1 + sh) in H0 by lia.
        rewrite pow2_split in H0 by lia.
        assert (Zpos mx * 2 ^ sh < 2 ^ d1 * 2 ^ sh)
          by (apply Zmult_lt_compat_r; lia).
        lia. }
      apply fexp_mono. pose proof (Zdigits2_lt_pow q _ (conj Hq0 H) Hc). lia.
    - assert (q = 0).
      { rewrite Hq. apply Z.div_small. split; [lia|].
        assert (Zpos mx * 2 ^ sh < 2 ^ d1 * 2 ^ sh)
          by (apply Zmult_lt_compat_r; lia).
        rewrite <- pow2_split in H by lia.
        assert (2 ^ (d1 + sh) <= 2 ^ (d2 - 1)) by (apply Z.pow_le_mono_r; lia).
        lia. }
      rewrite H. cbn [Zdigits2]. rewrite !fexp_eq in *. lia. }
  eapply rounded_mono; [|apply binary_round_aux_valid; assumption]. lia.
Qed.

Lemma wf_fdiv x y : wf x = true -> wf y = true -> wf (fdiv x y) = true.
Proof.
  intros Hx Hy.
  destruct x as [sx|sx| |sx mx ex], y as [sy|sy| |sy my ey]; try reflexivity.
  apply (rounded_good _ _ _ (fdiv_finite_rounded sx mx ex sy my ey Hx Hy)).
Qed.

(** Dividing a finite non-negative float by a positive constant of
    magnitude at least 2 gives a finite non-negative float. *)
Lemma fdiv_by_constant x my ey :
  wf x = true -> is_finite x = true ->
  wf (S754_finite false my ey) = true -> 2 <= Zpos (digits2_pos my) + ey ->
  good (fdiv x (S754_finite false my ey)) /\
  is_finite (fdiv x (S754_finite false my ey)) = true /\
  (0 <= rank x -> 0 <= rank (fdiv x (S754_finite false my ey))).
Proof.
  intros Hx Fx Hy Hmag. destruct x as [sx| | |sx mx ex]; try discriminate.
  - unfold fdiv. cbn [SFdiv]. repeat split; reflexivity.
  - pose proof (fdiv_finite_rounded sx mx ex false my ey Hx Hy) as Hr.
    pose proof Hx as Hb. unfold wf in Hb. cbn [valid_binary] in Hb.
    apply bounded_facts in Hb as [Hc He]. apply canonical_facts in Hc as (_ & _ & Hd & _).
    split; [exact (rounded_good _ _ _ Hr)|]. split.
    + eapply rounded_is_finite; [|exact Hr]. rewrite fexp_eq. lia.
    + intros Hnn. cbn [rank] in Hnn. destruct sx.
      * pose proof (ival_pos mx ex ltac:(apply wf_finite_min in Hx; lia)).
        cbn [cond_Zopp] in Hnn. lia.
      * cbn [xorb] in Hr. exact (rounded_sign _ _ Hr).
Qed.

(** * The two loops in closed form *)

Lemma py_range_from_1 H :
  py_range 1 (H + 1) = map (fun i => 1 + Z.of_nat i) (seq 0 (Z.to_nat H)).
Proof. unfold py_range. replace (H + 1 - 1) with H by lia. reflexivity. Qed.

Lemma year_one_test a : (1 + Z.of_nat a =? 1) = Nat.eqb a 0.
Proof.
  destruct a as [|a]; [reflexivity|].
  cbn [Nat.eqb]. apply Z.eqb_neq. lia.
Qed.

Lemma savings_fold net fee n : forall a acc,
  fold_left (savings_step net fee) (map (fun i => 1 + Z.of_nat i) (seq a n))
    (acc, total_after net fee a)
  = (acc ++ map (total_after net fee) (seq (S a) n), total_after net fee (a + n)).
Proof.
  induction n as [|n IH]; intros a acc.
  - cbn [seq map fold_left]. rewrite app_nil_r, Nat.add_0_r. reflexivity.
  - cbn [seq map fold_left]. unfold savings_step at 2.
    rewrite year_one_test.
    change (if Nat.eqb a 0
            then fsub (fadd (total_after net fee a) net) fee
            else fadd (total_after net fee a) net)
      with (total_after net fee (S a)).
    rewrite IH. rewrite <- app_assoc. cbn [app].
    replace (S a + n)%nat with (a + S n)%nat by lia. reflexivity.
Qed.

Lemma savings_loop_closed net fee H :
  savings_loop net fee H = map (total_after net fee) (seq 1 (Z.to_nat H)).
Proof.
  unfold savings_loop. rewrite py_range_from_1.
  change (of_int 0) with (total_after net fee 0).
  rewrite savings_fold. reflexivity.
Qed.

Lemma savings_loop_length net fee H :
  0 <= H -> Z.of_nat (List.length (savings_loop net fee H)) = H.
Proof.
  intros HH. rewrite savings_loop_closed, length_map, length_seq. lia.
Qed.

Lemma year_of_savings net fee H y :
  1 <= y <= H ->
  year_of (savings_loop net fee H) y = total_after net fee (Z.to_nat y).
Proof.
  intros Hy. unfold year_of. rewrite savings_loop_closed.
  rewrite (nth_indep _ S754_nan (total_after net fee 0))
    by (rewrite length_map, length_seq; lia).
  rewrite map_nth. rewrite seq_nth by lia. f_equal. lia.
Qed.

Lemma find_snoc {A} (f : A -> bool) l x :
  find f (l ++ [x]) =
    match find f l with
    | Some y => Some y
    | None => if f x then Some x else None
    end.
Proof.
  induction l as [|a l IH]; cbn [app find]; [reflexivity|].
  destruct (f a); [reflexivity|exact IH].
Qed.

Lemma truediv_hundred x : truediv x (of_int 100) = Some (fdiv x (of_int 100)).
Proof. reflexivity. Qed.

Lemma truediv_million x :
  truediv x (of_int 1000000) = Some (fdiv x (of_int 1000000)).
Proof. reflexivity. Qed.

Lemma reached_succ net fee a :
  reached net fee (1 + Z.of_nat a) = fleb (of_int 0) (running_sum net fee (S a)).
Proof.
  unfold reached. replace (Z.to_nat (1 + Z.of_nat a)) with (S a) by lia. reflexivity.
Qed.

Lemma payback_fold net fee n : forall a,
  fold_left (payback_step net fee) (map (fun i => 1 + Z.of_nat i) (seq a n))
    (Some (find (reached net fee) (map (fun i => 1 + Z.of_nat i) (seq 0 a)),
           running_sum net fee a))
  = Some (find (reached net fee) (map (fun i => 1 + Z.of_nat i) (seq 0 (a + n))),
          running_sum net fee (a + n)).
Proof.
  induction n as [|n IH]; intros a.
  - cbn [seq map fold_left]. rewrite Nat.add_0_r. reflexivity.
  - cbn [seq map fold_left].
    replace (a + S n)%nat with (S a + n)%nat by lia. rewrite <- IH.
    f_equal. unfold payback_step. cbn [bind].
    rewrite year_one_test, truediv_million.
    assert (Hc : (if Nat.eqb a 0
                  then q <- Some (fdiv fee (of_int 1000000));;
                       Some (fadd (running_sum net fee a) (fsub net q))
                  else Some (fadd (running_sum net fee a) net))
                 = Some (running_sum net fee (S a))).
    { cbn [running_sum]. destruct (Nat.eqb a 0); reflexivity. }
    rewrite Hc. cbn [bind]. f_equal. f_equal.
    rewrite seq_S, map_app. cbn [map Nat.add]. rewrite find_snoc.
    rewrite reached_succ.
    destruct (find (reached net fee) (map (fun i => 1 + Z.of_nat i) (seq 0 a)));
      reflexivity.
Qed.

Lemma payback_loop_closed net fee H :
  payback_loop net fee H None (of_int 0)
  = Some (first_payback net fee H, running_sum net fee (Z.to_nat H)).
Proof.
  unfold payback_loop, first_payback. rewrite py_range_from_1.
  exact (payback_fold net fee (Z.to_nat H) 0).
Qed.

(** The first element of [1..H] that satisfies a test. *)
Lemma find_first_nat (f : Z -> bool) n :
  match find f (map (fun i => 1 + Z.of_nat i) (seq 0 n)) with
  | Some y => 1 <= y <= Z.of_nat n /\ f y = true /\
              forall y', 1 <= y' < y -> f y' = false
  | None => forall y, 1 <= y <= Z.of_nat n -> f y = false
  end.
Proof.
  induction n as [|n IH].
  - cbn. intros y Hy. lia.
  - rewrite seq_S, map_app. cbn [map Nat.add]. rewrite find_snoc.
    destruct (find f (map (fun i => 1 + Z.of_nat i) (seq 0 n))) as [y|].
    + destruct IH as (Hy & Hf & Hmin). repeat split; try assumption; lia.
    + destruct (f (1 + Z.of_nat n)) eqn:Hf.
      * repeat split; try assumption; try lia.
        intros y' Hy'. apply IH. lia.
      * intros y Hy. destruct (Z.eq_dec y (1 + Z.of_nat n)) as [->|Hne];
          [assumption|]. apply IH. lia.
Qed.

Lemma first_payback_spec net fee H :
  match first_payback net fee H with
  | Some y => 1 <= y <= H /\ reached net fee y = true /\
              forall y', 1 <= y' < y -> reached net fee y' = false
  | None => forall y, 1 <= y <= H -> reached net fee y = false
  end.
Proof.
  unfold first_payback. rewrite py_range_from_1.
  pose proof (find_first_nat (reached net fee) (Z.to_nat H)) as Hf.
  destruct (find (reached net fee) (map (fun i => 1 + Z.of_nat i) (seq 0 (Z.to_nat H))))
    as [y|].
  - destruct Hf as (Hy & Hr & Hmin). repeat split; try assumption; lia.
  - intros y Hy. apply Hf. lia.
Qed.

(** * One run of the script *)

Lemma calculate_savings_eq p :
  calculate_savings (transactionFeePercent p) (trappedFunds p)
    (annualLossRatePercent p) (consultingFee p) (horizonYears p)
  = Some (savings_loop (net_annual_savings_of p) (consultingFee p) (horizonYears p),
          net_annual_savings_of p, annual_current_loss_of p,
          annual_blockchain_cost_of p).
Proof. reflexivity. Qed.

Lemma run_script_eq p ns :
  run_script p ns =
  Some {| ns_cumulative_savings :=
            Some (savings_loop (net_annual_savings_of p) (consultingFee p) (horizonYears p));
          ns_net_annual_savings := Some (net_annual_savings_of p);
          ns_annual_current_loss := Some (annual_current_loss_of p);
          ns_annual_blockchain_cost := Some (annual_blockchain_cost_of p);
          ns_payback_year :=
            Some (first_payback (net_annual_savings_of p) (consultingFee p) (horizonYears p));
          ns_cumulative :=
            Some (running_sum (net_annual_savings_of p) (consultingFee p)
                    (Z.to_nat (horizonYears p))) |}.
Proof.
  unfold run_script. rewrite calculate_savings_eq.
  cbn [bind ns_net_annual_savings ns_payback_year ns_cumulative ns_cumulative_savings
       ns_annual_current_loss ns_annual_blockchain_cost].
  rewrite payback_loop_closed. reflexivity.
Qed.

Lemma project_from_eq ns p :
  project_from ns p =
  Some {| annualTrappedTotal := annual_trapped_total (trappedFunds p);
          annualCurrentLoss := annual_current_loss_of p;
          annualBlockchainCost := annual_blockchain_cost_of p;
          netAnnualSavings := net_annual_savings_of p;
          cumulativeSavingsByYear :=
            savings_loop (net_annual_savings_of p) (consultingFee p) (horizonYears p);
          paybackYear :=
            first_payback (net_annual_savings_of p) (consultingFee p) (horizonYears p) |}.
Proof. unfold project_from. rewrite run_script_eq. reflexivity. Qed.

Lemma project_eq p :
  project p =
  Some {| annualTrappedTotal := annual_trapped_total (trappedFunds p);
          annualCurrentLoss := annual_current_loss_of p;
          annualBlockchainCost := annual_blockchain_cost_of p;
          netAnnualSavings := net_annual_savings_of p;
          cumulativeSavingsByYear :=
            savings_loop (net_annual_savings_of p) (consultingFee p) (horizonYears p);
          paybackYear :=
            first_payback (net_annual_savings_of p) (consultingFee p) (horizonYears p) |}.
Proof. apply project_from_eq. Qed.

(** * Valid parameters *)

Lemma valid_inv p :
  valid p = true ->
  in_range (of_int 0) (of_int 5) (transactionFeePercent p) = true /\
  forallb (fun kv => amount_ok (snd kv)) (trappedFunds p) = true /\
  in_range (of_int 0) (of_int 25) (annualLossRatePercent p) = true /\
  amount_ok (consultingFee p) = true /\
  1 <= horizonYears p <= 20.
Proof.
  unfold valid. intros H.
  do 8 (apply andb_true_iff in H; destruct H as [H ?]).
  repeat split; try assumption; apply Z.leb_le; assumption.
Qed.

Lemma same_value_refl x : same_value x x.
Proof. destruct x; cbn; auto. Qed.


Lemma first_year_value net fee :
  same_value (total_after net fee 1) (fsub net fee).
Proof.
  cbn [total_after Nat.eqb].
  destruct net as [s|s| |s m e]; try apply same_value_refl.
  destruct s, fee as [[|]|[|]| |sf mf ef]; cbn; auto.
Qed.

(** * The series under valid parameters *)

Lemma fleb_true_rank x y : wf x = true -> wf y = true -> fleb x y = true ->
  good x /\ good y /\ rank x <= rank y.
Proof.
  intros Wx Wy H. destruct (fleb_nonnan x y H) as [Nx Ny].
  assert (Gx : good x) by (split; assumption).
  assert (Gy : good y) by (split; assumption).
  rewrite (fleb_rank x y Gx Gy) in H. apply Z.leb_le in H. auto.
Qed.

Lemma fltb_true_rank x y : wf x = true -> wf y = true -> fltb x y = true ->
  good x /\ good y /\ rank x < rank y.
Proof.
  intros Wx Wy H. destruct (fltb_nonnan x y H) as [Nx Ny].
  assert (Gx : good x) by (split; assumption).
  assert (Gy : good y) by (split; assumption).
  rewrite (fltb_rank x y Gx Gy) in H. apply Z.ltb_lt in H. auto.
Qed.

Lemma amount_ok_inv x :
  amount_ok x = true -> good x /\ is_finite x = true /\ 0 <= rank x.
Proof.
  unfold amount_ok. intros H.
  apply andb_true_iff in H as [H H3]. apply andb_true_iff in H as [H1 H2].
  destruct (fleb_true_rank (of_int 0) x eq_refl H1 H3) as (_ & Gx & Hr).
  auto.
Qed.

Lemma in_range_inv lo hi x :
  in_range lo hi x = true ->
  is_finite lo = true -> is_finite hi = true ->
  wf x = true /\ is_finite x = true.
Proof.
  unfold in_range. intros H Flo Fhi.
  apply andb_true_iff in H as [H H3]. apply andb_true_iff in H as [H1 H2].
  split; [assumption|].
  destruct x as [s|[|]| |s m e]; try reflexivity.
  - destruct lo; try discriminate; discriminate H2.
  - destruct hi; try discriminate; discriminate H3.
  - destruct lo; discriminate H2.
Qed.

Lemma hundred_eq : of_int 100 = S754_finite false 7036874417766400 (-46).
Proof. reflexivity. Qed.

Lemma million_eq : of_int 1000000 = S754_finite false 8589934592000000 (-33).
Proof. reflexivity. Qed.

Lemma percent_finite x :
  wf x = true -> is_finite x = true ->
  good (fdiv x (of_int 100)) /\ is_finite (fdiv x (of_int 100)) = true.
Proof.
  intros Wx Fx. rewrite hundred_eq.
  destruct (fdiv_by_constant x 7036874417766400 (-46) Wx Fx eq_refl ltac:(cbn; lia))
    as (G & F & _).
  auto.
Qed.

Lemma millionth_nonneg x :
  good x -> is_finite x = true -> 0 <= rank x ->
  good (fdiv x (of_int 1000000)) /\ 0 <= rank (fdiv x (of_int 1000000)).
Proof.
  intros [Wx _] Fx Hx. rewrite million_eq.
  destruct (fdiv_by_constant x 8589934592000000 (-33) Wx Fx eq_refl ltac:(cbn; lia))
    as (G & _ & Hs).
  auto.
Qed.

Lemma wf_py_sum xs :
  Forall (fun x => wf x = true) xs -> wf (py_sum xs) = true.
Proof.
  unfold py_sum. generalize (of_int 0) (eq_refl : wf (of_int 0) = true).
  induction xs as [|x xs IH]; intros acc Hacc Hall; cbn [fold_left]; [assumption|].
  inversion Hall; subst. apply IH; [|assumption]. apply wf_fadd; assumption.
Qed.

Lemma wf_net_annual_savings p :
  valid p = true -> wf (net_annual_savings_of p) = true.
Proof.
  intros Hv. apply valid_inv in Hv as (Hf & Ha & Hl & _ & _).
  assert (WT : wf (annual_trapped_total (trappedFunds p)) = true).
  { unfold annual_trapped_total, values. apply wf_py_sum.
    apply Forall_forall. intros x Hx. apply in_map_iff in Hx as (kv & <- & Hin).
    rewrite forallb_forall in Ha. apply amount_ok_inv. apply Ha. assumption. }
  apply in_range_inv in Hf as [Wf _]; try reflexivity.
  apply in_range_inv in Hl as [Wl _]; try reflexivity.
  unfold net_annual_savings_of, annual_current_loss_of, annual_blockchain_cost_of.
  apply wf_fsub; apply wf_fmul; try assumption; apply wf_fdiv; auto.
Qed.

Lemma fsub_le_neg x y :
  good x -> good y -> rank x <= 0 -> 0 <= rank y ->
  good (fsub x y) /\ rank (fsub x y) <= - rank y.
Proof.
  intros Gx Gy Hx Hy. pose proof huge_pos as Hh.
  destruct (is_finite x) eqn:Fx, (is_finite y) eqn:Fy.
  - destruct (fsub_faithful x y Gx Gy Fx Fy) as [Gr Hr].
    split; [assumption|].
    destruct (good_fneg y Gy) as [Gm Hm]. rewrite <- Hm. apply (Hr _ Gm). lia.
  - destruct Gx as [Wx Nx], Gy as [Wy Ny]. pose proof (rank_finite x Wx Fx).
    destruct x as [sx| | |sx mx ex], y as [sy|[|]| |sy my ey]; try discriminate;
      cbn [rank cond_Zopp] in *; try lia; unfold fsub; cbn [SFsub negb];
      (split; [split; reflexivity|]); cbn [rank cond_Zopp]; lia.
  - destruct Gx as [Wx Nx], Gy as [Wy Ny]. pose proof (rank_finite y Wy Fy).
    destruct x as [sx|[|]| |sx mx ex], y as [sy|sy| |sy my ey]; try discriminate;
      cbn [rank cond_Zopp] in *; try lia; unfold fsub; cbn [SFsub negb];
      (split; [split; reflexivity|]); cbn [rank cond_Zopp]; lia.
  - destruct Gx as [Wx Nx], Gy as [Wy Ny].
    destruct x as [sx|[|]| |sx mx ex], y as [sy|[|]| |sy my ey]; try discriminate;
      cbn [rank cond_Zopp] in *; try lia; unfold fsub; cbn [SFsub negb];
      (split; [split; reflexivity|]); cbn [rank cond_Zopp]; lia.
Qed.

(** With a non-positive annual net saving the series never rises and
    stays at or below [-consultingFee]. *)
Lemma total_after_falling net fee :
  good net -> rank net <= 0 -> good fee -> 0 <= rank fee ->
  forall y, (1 <= y)%nat ->
    good (total_after net fee y) /\
    rank (total_after net fee y) <= - rank fee /\
    rank (total_after net fee (S y)) <= rank (total_after net fee y).
Proof.
  intros Gn Hn Gf Hf. pose proof huge_pos as Hh.
  assert (H1 : good (total_after net fee 1) /\ rank (total_after net fee 1) <= - rank fee).
  { cbn [total_after Nat.eqb].
    destruct (fadd_nonpos (of_int 0) net (good_zero false) Gn Hn Hh) as [Gx Hx].
    change (rank (of_int 0)) with 0 in Hx.
    apply fsub_le_neg; assumption. }
  assert (Hstep : forall y, (1 <= y)%nat ->
            good (total_after net fee y) -> rank (total_after net fee y) <= - rank fee ->
            good (total_after net fee (S y)) /\
            rank (total_after net fee (S y)) <= rank (total_after net fee y)).
  { intros y Hy Gy Ry. cbn [total_after].
    replace (Nat.eqb y 0) with false by (symmetry; apply Nat.eqb_neq; lia).
    apply fadd_nonpos; try assumption. lia. }
  intros y Hy. induction y as [|y IH]; [lia|].
  destruct (Nat.eq_dec y 0) as [->|Hne].
  - destruct H1 as [G1 R1]. split; [assumption|]. split; [assumption|].
    apply Hstep; auto.
  - destruct (IH ltac:(lia)) as (Gy & Ry & Sy).
    destruct (Hstep y ltac:(lia) Gy Ry) as [GS RS].
    split; [assumption|]. split; [lia|]. apply Hstep; [lia|assumption|lia].
Qed.

(** With a non-negative annual net saving the series never falls. *)
Lemma total_after_rising net fee :
  good net -> 0 <= rank net -> good fee -> is_finite fee = true ->
  forall y, (1 <= y)%nat ->
    good (total_after net fee y) /\
    - huge < rank (total_after net fee y) /\
    rank (total_after net fee y) <= rank (total_after net fee (S y)).
Proof.
  intros Gn Hn Gf Ff. pose proof huge_pos as Hh.
  assert (H1 : good (total_after net fee 1) /\ - huge < rank (total_after net fee 1)).
  { cbn [total_after Nat.eqb].
    destruct (fadd_nonneg (of_int 0) net (good_zero false) Gn Hn ltac:(cbn; lia)) as [Gx Hx].
    change (rank (of_int 0)) with 0 in Hx.
    apply fsub_above; assumption. }
  assert (Hstep : forall y, (1 <= y)%nat ->
            good (total_after net fee y) -> - huge < rank (total_after net fee y) ->
            good (total_after net fee (S y)) /\
            rank (total_after net fee y) <= rank (total_after net fee (S y))).
  { intros y Hy Gy Ry. cbn [total_after].
    replace (Nat.eqb y 0) with false by (symmetry; apply Nat.eqb_neq; lia).
    apply fadd_nonneg; assumption. }
  intros y Hy. induction y as [|y IH]; [lia|].
  destruct (Nat.eq_dec y 0) as [->|Hne].
  - destruct H1 as [G1 R1]. split; [assumption|]. split; [assumption|].
    apply Hstep; auto.
  - destruct (IH ltac:(lia)) as (Gy & Ry & Sy).
    destruct (Hstep y ltac:(lia) Gy Ry) as [GS RS].
    split; [assumption|]. split; [lia|]. apply Hstep; [lia|assumption|lia].
Qed.

(** The running sum of the payback loop stays negative when the annual
    net saving is non-positive and one of the two terms of year 1 is not
    zero. *)
Lemma running_sum_negative net fee :
  good net -> rank net <= 0 -> good fee -> is_finite fee = true -> 0 <= rank fee ->
  rank net < 0 \/ 0 < rank (fdiv fee (of_int 1000000)) ->
  forall y, (1 <= y)%nat ->
    good (running_sum net fee y) /\ rank (running_sum net fee y) < 0.
Proof.
  intros Gn Hn Gf Ff Hf Hs. pose proof huge_pos as Hh.
  destruct (millionth_nonneg fee Gf Ff Hf) as [Gq Hq].
  intros y Hy. induction y as [|y IH]; [lia|].
  destruct (Nat.eq_dec y 0) as [->|Hne].
  - cbn [running_sum Nat.eqb].
    destruct (fsub_negative net _ Gn Gq Hn Hq Hs) as [Gd Hd].
    change (of_int 0) with (S754_zero false).
    rewrite fadd_zero_l by (try assumption; lia). auto.
  - destruct (IH ltac:(lia)) as [Gy Ry]. cbn [running_sum].
    replace (Nat.eqb y 0) with false by (symmetry; apply Nat.eqb_neq; lia).
    destruct (fadd_nonpos _ net Gy Gn Hn ltac:(lia)) as [GS RS].
    split; [assumption|lia].
Qed.

(** ** Nothing trapped *)

Lemma py_sum_zeros xs :
  forallb is_zero xs = true -> py_sum xs = S754_zero false.
Proof.
  unfold py_sum. change (of_int 0) with (S754_zero false).
  induction xs as [|x xs IH]; cbn [forallb fold_left]; [reflexivity|].
  intros H. apply andb_true_iff in H as [Hx Hxs].
  destruct x as [[|]| | |]; try discriminate; apply IH; assumption.
Qed.

Lemma fmul_zero_l s y :
  is_finite y = true -> is_zero (fmul (S754_zero s) y) = true.
Proof. destruct y; try discriminate; reflexivity. Qed.

Lemma fsub_zeros x y :
  is_zero x = true -> is_zero y = true -> is_zero (fsub x y) = true.
Proof.
  destruct x as [[|]| | |], y as [[|]| | |]; try discriminate; reflexivity.
Qed.

Lemma net_zero_without_funds T loss tfee :
  T = S754_zero false ->
  wf loss = true -> is_finite loss = true ->
  wf tfee = true -> is_finite tfee = true ->
  is_zero (fsub (fmul T (fdiv loss (of_int 100)))
                (fmul T (fdiv tfee (of_int 100)))) = true.
Proof.
  intros -> Wl Fl Wt Ft.
  destruct (percent_finite loss Wl Fl) as [_ F1].
  destruct (percent_finite tfee Wt Ft) as [_ F2].
  apply fsub_zeros; apply fmul_zero_l; assumption.
Qed.

(** With a zero annual net saving every year of the series is
    [-consultingFee]. *)
Lemma total_after_zero_net net fee :
  is_zero net = true -> is_nan fee = false ->
  forall y, (1 <= y)%nat ->
    same_value (total_after net fee y) (fneg fee) /\
    (is_zero fee = false -> total_after net fee y = fneg fee).
Proof.
  intros Hn Hf y Hy. induction y as [|y IH]; [lia|].
  destruct (Nat.eq_dec y 0) as [->|Hne].
  - cbn [total_after Nat.eqb].
    destruct net as [[|]| | |]; try discriminate;
      destruct fee as [[|]|[|]| |[|] m e]; try discriminate;
      cbn; split; auto; discriminate.
  - destruct (IH ltac:(lia)) as [Hs He]. cbn [total_after].
    replace (Nat.eqb y 0) with false by (symmetry; apply Nat.eqb_neq; lia).
    destruct (is_zero fee) eqn:Hz.
    + split; [|discriminate].
      remember (total_after net fee y) as t eqn:Ht. clear Ht IH He.
      destruct fee as [sf| | |]; try discriminate.
      destruct t as [[|]| | |]; cbn [same_value fneg SFopp] in Hs; try discriminate;
        destruct net as [[|]| | |]; try discriminate; cbn; auto.
    + rewrite (He eq_refl).
      destruct fee as [sf|sf| |sf m e]; try discriminate;
        destruct net as [[|]| | |]; try discriminate; cbn; auto.
Qed.

(** ** Sums of whole numbers are exact *)













(** * The claims *)

(** C1. The payback year comes from an accumulation of its own over the
    years 1..horizonYears: it starts from 0, adds netAnnualSavings every
    year and, in year 1, subtracts consultingFee / 1,000,000 (not the full
    fee).  The payback year is the first year at which that running sum is
    >= 0, and "Not within horizon" is shown exactly when no year of the
    horizon reaches it. *)
Theorem payback_year_is_first_nonnegative_year : forall p,
  exists r,
    project p = Some r /\
    let net := netAnnualSavings r in
    let fee := consultingFee p in
    running_sum net fee 1 =
      fadd (of_int 0) (fsub net (fdiv fee (of_int 1000000))) /\
    (forall y, (1 <= y)%nat ->
       running_sum net fee (S y) = fadd (running_sum net fee y) net) /\
    paybackYear r = first_payback net fee (horizonYears p) /\
    (forall y, paybackYear r = Some y <->
       1 <= y <= horizonYears p /\ reached net fee y = true /\
       forall y', 1 <= y' < y -> reached net fee y' = false) /\
    (paybackYear r = None <->
       forall y, 1 <= y <= horizonYears p -> reached net fee y = false) /\
    (payback_display (paybackYear r) = "Not within horizon"%string <->
       paybackYear r = None).
Proof.
  intros p. eexists. split; [apply project_eq|].
  cbn [netAnnualSavings paybackYear].
  set (net := net_annual_savings_of p). set (fee := consultingFee p).
  pose proof (first_payback_spec net fee (horizonYears p)) as Hspec.
  split; [reflexivity|]. split.
  { intros y Hy. destruct y as [|y]; [lia|]. reflexivity. }
  split; [reflexivity|].
  destruct (first_payback net fee (horizonYears p)) as [y0|] eqn:Hfp.
  - destruct Hspec as (Hy0 & Hr0 & Hmin). split; [|split].
    + intros y. split.
      * intros Hy. inversion Hy; subst y. auto.
      * intros (Hy & Hr & Hm). f_equal.
        destruct (Z.lt_trichotomy y y0) as [Hlt|[Heq|Hgt]]; [|symmetry; assumption|].
        -- rewrite (Hmin y) in Hr by lia. discriminate.
        -- rewrite (Hm y0) in Hr0 by lia. discriminate.
    + split; [discriminate|]. intros Hall. rewrite (Hall y0 Hy0) in Hr0. discriminate.
    + split; [|discriminate]. cbn [payback_display].
      destruct (Z.eqb_spec y0 0) as [|_]; [lia|].
      destruct y0 as [|q|q]; try lia. cbn [Z.to_int NilZero.string_of_int].
      destruct (Pos.to_uint q); cbn; discriminate.
  - split; [|split].
    + intros y. split; [discriminate|]. intros (Hy & Hr & _).
      rewrite (Hspec y Hy) in Hr. discriminate.
    + split; auto.
    + split; reflexivity.
Qed.

(** C2, as stated, fails: with trapped funds of 10.0, a loss rate of 0 %
    and a fee of 1 % the parameters are valid, the series falls from year
    1 to year 2, and the difference between years 3 and 2 is not
    netAnnualSavings. *)
Lemma costly_channel_series_falls :
  valid costly_channel = true /\
  exists r,
    project costly_channel = Some r /\
    fleb (year_of (cumulativeSavingsByYear r) 1)
         (year_of (cumulativeSavingsByYear r) 2) = false /\
    feqb (fsub (year_of (cumulativeSavingsByYear r) 3)
               (year_of (cumulativeSavingsByYear r) 2))
         (netAnnualSavings r) = false.
Proof.
  split; [reflexivity|].
  eexists. split; [apply project_eq|].
  split; vm_compute; reflexivity.
Qed.

(** C2, amended.  For valid parameters the first element of the series is
    netAnnualSavings - consultingFee, every later element is the
    floating-point sum of its predecessor and netAnnualSavings, and the
    series is non-decreasing whenever netAnnualSavings >= 0. *)
Theorem series_steps_by_net_annual_savings : forall p r,
  valid p = true -> project p = Some r ->
  let cs := cumulativeSavingsByYear r in
  let net := netAnnualSavings r in
  same_value (year_of cs 1) (fsub net (consultingFee p)) /\
  (forall y, 1 < y <= horizonYears p ->
     year_of cs y = fadd (year_of cs (y - 1)) net) /\
  (fleb (of_int 0) net = true ->
   forall y, 1 < y <= horizonYears p ->
     fleb (year_of cs (y - 1)) (year_of cs y) = true).
Proof.
  intros p r Hv Hr. rewrite project_eq in Hr. inversion Hr; subst r. clear Hr.
  cbn [cumulativeSavingsByYear netAnnualSavings].
  pose proof (wf_net_annual_savings p Hv) as Wn.
  apply valid_inv in Hv as (_ & _ & _ & Hc & Hh).
  apply amount_ok_inv in Hc as (Gf & Ff & Hf).
  set (net := net_annual_savings_of p) in *. set (fee := consultingFee p) in *.
  assert (Hyear : forall y, 1 <= y <= horizonYears p ->
            year_of (savings_loop net fee (horizonYears p)) y
            = total_after net fee (Z.to_nat y))
    by (intros; apply year_of_savings; assumption).
  split; [|split].
  - rewrite Hyear by lia. apply first_year_value.
  - intros y Hy. rewrite !Hyear by lia.
    replace (Z.to_nat y) with (S (Z.to_nat (y - 1))) by lia.
    cbn [total_after].
    replace (Nat.eqb (Z.to_nat (y - 1)) 0) with false
      by (symmetry; apply Nat.eqb_neq; lia).
    reflexivity.
  - intros Hnet y Hy. rewrite !Hyear by lia.
    destruct (fleb_true_rank (of_int 0) net eq_refl Wn Hnet) as (_ & Gn & Rn).
    change (rank (of_int 0)) with 0 in Rn.
    destruct (total_after_rising net fee Gn Rn Gf Ff (Z.to_nat (y - 1)) ltac:(lia))
      as (G1 & _ & Hle).
    destruct (total_after_rising net fee Gn Rn Gf Ff (S (Z.to_nat (y - 1))) ltac:(lia))
      as (G2 & _ & _).
    replace (Z.to_nat y) with (S (Z.to_nat (y - 1))) by lia.
    rewrite fleb_rank by assumption. apply Z.leb_le. exact Hle.
Qed.

Lemma series_steps_by_net_annual_savings_witness :
  valid average_estimate = true /\
  exists r,
    project average_estimate = Some r /\
    forall y, 1 < y <= horizonYears average_estimate ->
      fleb (year_of (cumulativeSavingsByYear r) (y - 1))
           (year_of (cumulativeSavingsByYear r) y) = true.
Proof.
  split; [reflexivity|].
  eexists. split; [apply project_eq|].
  apply (series_steps_by_net_annual_savings average_estimate _ eq_refl
           (project_eq average_estimate)).
  reflexivity.
Defined.

(** C3, as stated, fails: on the sample scenario the tenth cumulative
    value is not 2,045,500. *)
Lemma average_estimate_year_10_is_not_2045500 :
  ~ exists r,
      project average_estimate = Some r /\
      feqb (annualTrappedTotal r) (of_int 1800000) = true /\
      feqb (annualCurrentLoss r) (of_int 270000) = true /\
      feqb (annualBlockchainCost r) (of_int 40500) = true /\
      feqb (netAnnualSavings r) (of_int 229500) = true /\
      feqb (year_of (cumulativeSavingsByYear r) 1) (of_int (-20500)) = true /\
      feqb (year_of (cumulativeSavingsByYear r) 2) (of_int 209000) = true /\
      feqb (year_of (cumulativeSavingsByYear r) 10) (of_int 2045500) = true.
Proof.
  intros (r & Hr & _ & _ & _ & _ & _ & _ & H10).
  rewrite project_eq in Hr. inversion Hr; subst r. clear Hr.
  vm_compute in H10. discriminate.
Qed.

(** C3, amended.  Trapped funds {Bangladesh: 1,000,000, Pakistan: 500,000,
    Others: 300,000}, loss rate 15 %, fee 2.25 %, consulting fee 250,000,
    horizon 10 give annualTrappedTotal = 1,800,000, annualCurrentLoss =
    270,000, annualBlockchainCost = 40,500, netAnnualSavings = 229,500,
    cumulativeSavingsByYear[1] = -20,500, cumulativeSavingsByYear[2] =
    209,000 and cumulativeSavingsByYear[10] = 2,045,000, all exactly. *)
Theorem average_estimate_values :
  exists r,
    project average_estimate = Some r /\
    annualTrappedTotal r = of_int 1800000 /\
    annualCurrentLoss r = of_int 270000 /\
    annualBlockchainCost r = of_int 40500 /\
    netAnnualSavings r = of_int 229500 /\
    year_of (cumulativeSavingsByYear r) 1 = of_int (-20500) /\
    year_of (cumulativeSavingsByYear r) 2 = of_int 209000 /\
    year_of (cumulativeSavingsByYear r) 10 = of_int 2045000.
Proof.
  eexists. split; [apply project_eq|].
  repeat split; vm_compute; reflexivity.
Qed.

(** C4, as stated, fails: without trapped funds netAnnualSavings is 0, and
    a consulting fee of 5e-324 is positive, yet consultingFee / 1,000,000
    underflows to 0, the running sum of year 1 is 0 >= 0 and the payback
    year is 1. *)
Lemma tiny_fee_pays_back_in_year_1 :
  valid tiny_fee = true /\
  exists r,
    project tiny_fee = Some r /\
    fleb (netAnnualSavings r) (of_int 0) = true /\
    fltb (of_int 0) (consultingFee tiny_fee) = true /\
    paybackYear r = Some 1 /\
    payback_display (paybackYear r) = "1"%string.
Proof.
  split; [reflexivity|].
  eexists. split; [apply project_eq|].
  repeat split; vm_compute; reflexivity.
Qed.

(** C4, amended.  For valid parameters with netAnnualSavings <= 0 and
    consultingFee > 0 the series is non-increasing and negative in every
    year; and when netAnnualSavings < 0, or consultingFee / 1,000,000 is
    still positive as a double, no year of the horizon reaches a running
    sum >= 0 and the payback year is "Not within horizon". *)
Theorem no_payback_without_savings : forall p r,
  valid p = true -> project p = Some r ->
  fleb (netAnnualSavings r) (of_int 0) = true ->
  fltb (of_int 0) (consultingFee p) = true ->
  let cs := cumulativeSavingsByYear r in
  (forall y, 1 < y <= horizonYears p ->
     fleb (year_of cs y) (year_of cs (y - 1)) = true) /\
  (forall y, 1 <= y <= horizonYears p ->
     fltb (year_of cs y) (of_int 0) = true) /\
  (fltb (netAnnualSavings r) (of_int 0) = true \/
   fltb (of_int 0) (fdiv (consultingFee p) (of_int 1000000)) = true ->
   (forall y, 1 <= y <= horizonYears p ->
      reached (netAnnualSavings r) (consultingFee p) y = false) /\
   paybackYear r = None /\
   payback_display (paybackYear r) = "Not within horizon"%string).
Proof.
  intros p r Hv Hr Hnet Hfee. rewrite project_eq in Hr. inversion Hr; subst r. clear Hr.
  cbn [cumulativeSavingsByYear netAnnualSavings paybackYear] in *.
  pose proof (wf_net_annual_savings p Hv) as Wn.
  apply valid_inv in Hv as (_ & _ & _ & Hc & Hh).
  apply amount_ok_inv in Hc as (Gf & Ff & Hf).
  set (net := net_annual_savings_of p) in *. set (fee := consultingFee p) in *.
  destruct (fleb_true_rank net (of_int 0) Wn eq_refl Hnet) as (Gn & _ & Rn).
  change (rank (of_int 0)) with 0 in Rn.
  destruct (fltb_true_rank (of_int 0) fee eq_refl (proj1 Gf) Hfee) as (_ & _ & Rf).
  change (rank (of_int 0)) with 0 in Rf.
  assert (Hyear : forall y, 1 <= y <= horizonYears p ->
            year_of (savings_loop net fee (horizonYears p)) y
            = total_after net fee (Z.to_nat y))
    by (intros; apply year_of_savings; assumption).
  split; [|split].
  - intros y Hy. rewrite !Hyear by lia.
    destruct (total_after_falling net fee Gn Rn Gf Hf (Z.to_nat (y - 1)) ltac:(lia))
      as (G1 & _ & Hle).
    destruct (total_after_falling net fee Gn Rn Gf Hf (S (Z.to_nat (y - 1))) ltac:(lia))
      as (G2 & _ & _).
    replace (Z.to_nat y) with (S (Z.to_nat (y - 1))) by lia.
    rewrite fleb_rank by assumption. apply Z.leb_le. exact Hle.
  - intros y Hy. rewrite Hyear by lia.
    destruct (total_after_falling net fee Gn Rn Gf Hf (Z.to_nat y) ltac:(lia))
      as (G1 & R1 & _).
    rewrite fltb_rank by (try assumption; apply good_zero).
    apply Z.ltb_lt. change (rank (of_int 0)) with 0. lia.
  - intros Hs.
    assert (Hs' : rank net < 0 \/ 0 < rank (fdiv fee (of_int 1000000))).
    { destruct (millionth_nonneg fee Gf Ff Hf) as [Gq _].
      destruct Hs as [Hs|Hs]; [left|right].
      - destruct (fltb_true_rank net (of_int 0) Wn eq_refl Hs) as (_ & _ & H). exact H.
      - destruct (fltb_true_rank (of_int 0) _ eq_refl (proj1 Gq) Hs) as (_ & _ & H). exact H. }
    assert (Hnot : forall y, 1 <= y <= horizonYears p -> reached net fee y = false).
    { intros y Hy. unfold reached.
      destruct (running_sum_negative net fee Gn Rn Gf Ff Hf Hs' (Z.to_nat y) ltac:(lia))
        as [Gy Ry].
      rewrite fleb_rank by (try assumption; apply good_zero).
      apply Z.leb_gt. change (rank (of_int 0)) with 0. exact Ry. }
    split; [exact Hnot|].
    pose proof (first_payback_spec net fee (horizonYears p)) as Hspec.
    destruct (first_payback net fee (horizonYears p)) as [y0|].
    + destruct Hspec as (Hy0 & Hr0 & _). rewrite (Hnot y0 Hy0) in Hr0. discriminate.
    + split; reflexivity.
Qed.

Lemma no_payback_without_savings_witness :
  valid conservative_no_loss = true /\
  exists r,
    project conservative_no_loss = Some r /\
    paybackYear r = None.
Proof.
  split; [reflexivity|].
  eexists. split; [apply project_eq|].
  apply (no_payback_without_savings conservative_no_loss _ eq_refl
           (project_eq conservative_no_loss)); try reflexivity.
  left. reflexivity.
Defined.

(** C5. For valid parameters the cumulative series has exactly
    horizonYears elements. *)
Theorem cumulative_series_has_horizon_length : forall p,
  valid p = true ->
  exists r,
    project p = Some r /\
    Z.of_nat (List.length (cumulativeSavingsByYear r)) = horizonYears p.
Proof.
  intros p Hv. apply valid_inv in Hv as (_ & _ & _ & _ & Hh).
  eexists. split; [apply project_eq|].
  cbn [cumulativeSavingsByYear]. apply savings_loop_length. lia.
Qed.

Lemma cumulative_series_has_horizon_length_witness :
  valid average_estimate = true /\
  exists r,
    project average_estimate = Some r /\
    Z.of_nat (List.length (cumulativeSavingsByYear r)) = horizonYears average_estimate.
Proof.
  split; [reflexivity|].
  apply (cumulative_series_has_horizon_length average_estimate). reflexivity.
Defined.




(** C7. When every trapped-funds amount is zero, netAnnualSavings is 0
    whatever the (valid) loss rate and fee percentage are; every year of
    the series is -consultingFee when consultingFee > 0, and every year is
    0 when consultingFee = 0. *)
Theorem zero_trapped_funds_give_minus_fee : forall p,
  valid p = true ->
  forallb (fun kv => is_zero (snd kv)) (trappedFunds p) = true ->
  exists r,
    project p = Some r /\
    is_zero (netAnnualSavings r) = true /\
    (fltb (of_int 0) (consultingFee p) = true ->
     forall y, 1 <= y <= horizonYears p ->
       year_of (cumulativeSavingsByYear r) y = fneg (consultingFee p)) /\
    (is_zero (consultingFee p) = true ->
     forall y, 1 <= y <= horizonYears p ->
       is_zero (year_of (cumulativeSavingsByYear r) y) = true).
Proof.
  intros p Hv Hz. eexists. split; [apply project_eq|].
  cbn [netAnnualSavings cumulativeSavingsByYear].
  apply valid_inv in Hv as (Hf & _ & Hl & Hc & Hh).
  apply in_range_inv in Hf as [Wf Ff]; try reflexivity.
  apply in_range_inv in Hl as [Wl Fl]; try reflexivity.
  apply amount_ok_inv in Hc as ([_ Nc] & _ & _).
  assert (HT : annual_trapped_total (trappedFunds p) = S754_zero false).
  { unfold annual_trapped_total, values. apply py_sum_zeros.
    rewrite forallb_forall in *. intros x Hx.
    apply in_map_iff in Hx as (kv & <- & Hin). apply Hz. assumption. }
  assert (Hnet : is_zero (net_annual_savings_of p) = true)
    by (apply (net_zero_without_funds _ _ _ HT); assumption).
  split; [exact Hnet|]. split.
  - intros Hpos y Hy. rewrite year_of_savings by assumption.
    apply (total_after_zero_net _ _ Hnet Nc (Z.to_nat y) ltac:(lia)).
    destruct (consultingFee p) as [[|]| | |]; try reflexivity; discriminate Hpos.
  - intros Hz0 y Hy. rewrite year_of_savings by assumption.
    destruct (total_after_zero_net _ _ Hnet Nc (Z.to_nat y) ltac:(lia)) as [Hs _].
    destruct (consultingFee p) as [sf| | |]; try discriminate.
    destruct (total_after (net_annual_savings_of p) (S754_zero sf) (Z.to_nat y));
      cbn [same_value fneg SFopp] in Hs; try discriminate; reflexivity.
Qed.

Lemma zero_trapped_funds_give_minus_fee_witness :
  valid no_funds = true /\
  exists r,
    project no_funds = Some r /\
    is_zero (netAnnualSavings r) = true /\
    forall y, 1 <= y <= horizonYears no_funds ->
      year_of (cumulativeSavingsByYear r) y = fneg (consultingFee no_funds).
Proof.
  split; [reflexivity|].
  destruct (zero_trapped_funds_give_minus_fee no_funds eq_refl eq_refl)
    as (r & Hr & Hn & Hpos & _).
  exists r. split; [exact Hr|]. split; [exact Hn|]. apply Hpos. reflexivity.
Defined.

(** C8. Two parameter sets that differ only in transactionsPerYear give
    the same result, field for field. *)
Theorem transactions_per_year_do_not_matter : forall p1 p2,
  transactionFeePercent p1 = transactionFeePercent p2 ->
  trappedFunds p1 = trappedFunds p2 ->
  annualLossRatePercent p1 = annualLossRatePercent p2 ->
  consultingFee p1 = consultingFee p2 ->
  horizonYears p1 = horizonYears p2 ->
  project p1 = project p2.
Proof.
  intros p1 p2 Hf Ht Hl Hc Hh. rewrite !project_eq.
  unfold net_annual_savings_of, annual_current_loss_of, annual_blockchain_cost_of.
  rewrite Hf, Ht, Hl, Hc, Hh. reflexivity.
Qed.

Lemma transactions_per_year_do_not_matter_witness :
  transactionsPerYear average_estimate <> transactionsPerYear average_estimate_24 /\
  project average_estimate = project average_estimate_24.
Proof.
  split; [discriminate|].
  apply (transactions_per_year_do_not_matter average_estimate average_estimate_24);
    reflexivity.
Defined.

(** C9. A run is a function of the parameters alone: whatever the
    module-level names held before the run, the names it leaves behind and
    the result it hands over are the same, and they are there (the run
    raises nothing). *)
Theorem project_is_pure : forall p ns1 ns2,
  run_script p ns1 = run_script p ns2 /\
  project_from ns1 p = project_from ns2 p /\
  exists r, project_from ns1 p = Some r /\ project p = Some r.
Proof.
  intros p ns1 ns2. rewrite !run_script_eq, !project_from_eq.
  split; [reflexivity|]. split; [reflexivity|].
  eexists. split; [reflexivity|apply project_eq].
Qed.

(** C10. With an empty trapped-funds mapping [calculate_savings] still
    returns (no division can fail): for well-formed finite rates, a
    consulting fee >= 0 and a horizon >= 1 the total is 0, netAnnualSavings
    is 0, the series has horizonYears elements and each of them is
    -consultingFee. *)
Theorem empty_trapped_funds_is_total : forall tfee loss fee years,
  wf tfee = true -> is_finite tfee = true ->
  wf loss = true -> is_finite loss = true ->
  fleb (of_int 0) fee = true -> 1 <= years ->
  exists cs net l c,
    calculate_savings tfee [] loss fee years = Some (cs, net, l, c) /\
    annual_trapped_total [] = S754_zero false /\
    is_zero net = true /\
    Z.of_nat (List.length cs) = years /\
    forall y, 1 <= y <= years -> same_value (year_of cs y) (fneg fee).
Proof.
  intros tfee loss fee years Wt Ft Wl Fl Hfee Hy.
  destruct (fleb_nonnan _ _ Hfee) as [_ Nf].
  do 4 eexists. split; [reflexivity|]. split; [reflexivity|].
  assert (Hnet : is_zero (fsub (fmul (annual_trapped_total []) (fdiv loss (of_int 100)))
                               (fmul (annual_trapped_total []) (fdiv tfee (of_int 100)))) = true)
    by (apply net_zero_without_funds; auto).
  split; [exact Hnet|]. split; [apply savings_loop_length; lia|].
  intros y Hy'. rewrite year_of_savings by assumption.
  apply (total_after_zero_net _ _ Hnet Nf (Z.to_nat y) ltac:(lia)).
Qed.

Lemma empty_trapped_funds_is_total_witness :
  exists cs net l c,
    calculate_savings (of_decimal 225 2) [] (of_int 15) (of_int 250000) 10
      = Some (cs, net, l, c) /\
    annual_trapped_total [] = S754_zero false /\
    is_zero net = true /\
    Z.of_nat (List.length cs) = 10 /\
    forall y, 1 <= y <= 10 -> same_value (year_of cs y) (fneg (of_int 250000)).
Proof.
  apply (empty_trapped_funds_is_total (of_decimal 225 2) (of_int 15) (of_int 250000) 10);
    try reflexivity. lia.
Defined.

(** * More of the script *)

(** ** Dicts and lists *)

Lemma existsb_key_false {V : Type} (k : string) (d : list (string * V)) :
  existsb (fun kv => String.eqb k (fst kv)) d = false -> ~ In k (keys d).
Proof.
  induction d as [|[k' v'] d IH]; cbn [existsb keys map fst]; [auto|].
  intros H. apply orb_false_iff in H as [Hk Hd]. intros [Heq|Hin].
  - subst k'. rewrite String.eqb_refl in Hk. discriminate.
  - apply (IH Hd Hin).
Qed.

Lemma unique_keys_NoDup {V : Type} (d : list (string * V)) :
  unique_keys d = true -> NoDup (keys d).
Proof.
  induction d as [|[k v] d IH]; cbn [unique_keys keys map fst]; intros H.
  - constructor.
  - apply andb_true_iff in H as [Hk Hd]. apply negb_true_iff in Hk.
    constructor; [apply (existsb_key_false k d Hk)|apply IH; assumption].
Qed.

Lemma dict_setitem_new {V : Type} (d : list (string * V)) k v :
  ~ In k (keys d) -> dict_setitem d k v = d ++ [(k, v)].
Proof.
  induction d as [|[k' v'] d IH]; cbn [dict_setitem keys map fst app]; intros Hn;
    [reflexivity|].
  destruct (String.eqb_spec k k') as [->|Hne].
  - exfalso. apply Hn. left. reflexivity.
  - rewrite IH; [reflexivity|]. intros Hin. apply Hn. right. exact Hin.
Qed.

(** Filling a dict key by key from the items of a dict keeps the keys and
    their order. *)
Lemma fill_by_key {V W : Type} (f : string -> V -> W) (items : list (string * V)) :
  forall acc : list (string * W),
  NoDup (keys acc ++ keys items) ->
  fold_left (fun d kv => let '(k, v) := kv in dict_setitem d k (f k v)) items acc
  = acc ++ map (fun kv => (fst kv, f (fst kv) (snd kv))) items.
Proof.
  induction items as [|[k v] items IH]; intros acc Hnd; cbn [fold_left map].
  - rewrite app_nil_r. reflexivity.
  - cbn [keys map fst] in Hnd.
    assert (Hk : ~ In k (keys acc)).
    { intros Hin. apply NoDup_remove_2 in Hnd. apply Hnd.
      apply in_or_app. left. exact Hin. }
    rewrite (dict_setitem_new acc k (f k v) Hk). rewrite IH.
    + rewrite <- app_assoc. reflexivity.
    + unfold keys in *. rewrite map_app, <- app_assoc. cbn [map fst app]. exact Hnd.
Qed.

Lemma list_getitem_last {A : Type} (xs : list A) (x : A) :
  list_getitem (xs ++ [x]) (-1) = Some x.
Proof.
  unfold list_getitem. rewrite length_app. cbn [List.length].
  change (-1 <? 0) with true. cbv iota.
  replace (-1 + Z.of_nat (List.length xs + 1)) with (Z.of_nat (List.length xs)) by lia.
  replace (0 <=? Z.of_nat (List.length xs)) with true by (symmetry; apply Z.leb_le; lia).
  replace (Z.of_nat (List.length xs) <? Z.of_nat (List.length xs + 1)) with true
    by (symmetry; apply Z.ltb_lt; lia).
  cbn [andb]. rewrite Nat2Z.id. rewrite nth_error_app2 by lia.
  rewrite Nat.sub_diag. reflexivity.
Qed.

Lemma list_getitem_empty {A : Type} (i : Z) : list_getitem (@nil A) i = None.
Proof.
  unfold list_getitem. cbn [List.length Z.of_nat].
  destruct (i <? 0) eqn:Hi.
  - replace (0 <=? i + 0) with false; [reflexivity|].
    symmetry. apply Z.leb_gt. apply Z.ltb_lt in Hi. lia.
  - destruct (0 <=? i); [|reflexivity]. replace (i <? 0) with false. reflexivity.
Qed.

(** ** The horizon *)

Lemma firstn_seq_le n : forall a m, (n <= m)%nat -> firstn n (seq a m) = seq a n.
Proof.
  induction n as [|n IH]; intros a m Hle; [reflexivity|].
  destruct m as [|m]; [lia|]. cbn [seq firstn]. f_equal. apply IH. lia.
Qed.

Lemma savings_loop_no_years net fee years :
  years < 1 -> savings_loop net fee years = [].
Proof.
  intros H. rewrite savings_loop_closed. replace (Z.to_nat years) with 0%nat by lia.
  reflexivity.
Qed.

Lemma savings_loop_last net fee years :
  1 <= years ->
  list_getitem (savings_loop net fee years) (-1)
  = Some (total_after net fee (Z.to_nat years)).
Proof.
  intros H. rewrite savings_loop_closed.
  destruct (Z.to_nat years) as [|n] eqn:Hn; [lia|].
  rewrite seq_S, map_app. cbn [map]. rewrite list_getitem_last.
  reflexivity.
Qed.

Lemma total_savings_over_period_defined p :
  1 <= horizonYears p -> exists total, total_savings_over_period p = Some total.
Proof.
  intros H. unfold total_savings_over_period. rewrite calculate_savings_eq.
  cbn [bind]. rewrite savings_loop_last by assumption. eauto.
Qed.

(** X1. [cumulative_savings[-1]] on line 173 is the value of the last year
    of the horizon; with a horizon below 1 the series is empty and the line
    raises IndexError. *)
Theorem total_over_period_is_last_year : forall p,
  exists cs net l c,
    calculate_savings (transactionFeePercent p) (trappedFunds p)
      (annualLossRatePercent p) (consultingFee p) (horizonYears p)
      = Some (cs, net, l, c) /\
    (horizonYears p < 1 -> cs = [] /\ total_savings_over_period p = None) /\
    (1 <= horizonYears p ->
       total_savings_over_period p = Some (year_of cs (horizonYears p))).
Proof.
  intros p. do 4 eexists. split; [apply calculate_savings_eq|].
  unfold total_savings_over_period. rewrite calculate_savings_eq. cbn [bind].
  split.
  - intros H. rewrite savings_loop_no_years by assumption.
    split; [reflexivity|apply list_getitem_empty].
  - intros H. rewrite savings_loop_last by assumption.
    rewrite year_of_savings by lia. reflexivity.
Qed.

(** X2. A longer horizon only adds years: the series for a horizon is the
    beginning of the series for any longer horizon, and the three annual
    figures do not depend on the horizon. *)
Theorem longer_horizon_extends_series :
  forall transaction_fee trapped_funds loss_rate consulting_fee years years',
  0 <= years <= years' ->
  exists cs cs' net l c,
    calculate_savings transaction_fee trapped_funds loss_rate consulting_fee years
      = Some (cs, net, l, c) /\
    calculate_savings transaction_fee trapped_funds loss_rate consulting_fee years'
      = Some (cs', net, l, c) /\
    cs = firstn (Z.to_nat years) cs'.
Proof.
  intros tf funds lr cf years years' Hy.
  do 5 eexists. split; [reflexivity|]. split; [reflexivity|].
  rewrite !savings_loop_closed. rewrite firstn_map. f_equal.
  symmetry. apply firstn_seq_le. lia.
Qed.

Lemma longer_horizon_extends_series_witness :
  exists cs cs' net l c,
    calculate_savings (of_decimal 225 2) default_trapped_funds (of_int 15)
      (of_int 250000) 10 = Some (cs, net, l, c) /\
    calculate_savings (of_decimal 225 2) default_trapped_funds (of_int 15)
      (of_int 250000) 20 = Some (cs', net, l, c) /\
    cs = firstn (Z.to_nat 10) cs'.
Proof.
  apply (longer_horizon_extends_series (of_decimal 225 2) default_trapped_funds
           (of_int 15) (of_int 250000) 10 20).
  lia.
Defined.

(** X3. The payback year does not depend on the horizon beyond being
    inside it: if a horizon gives payback year [y], every horizon from [y]
    on gives [y] too and every shorter horizon gives none. *)
Theorem payback_year_is_stable_under_horizon : forall p years' r r' y,
  project p = Some r -> project (with_horizon p years') = Some r' ->
  paybackYear r = Some y ->
  (y <= years' -> paybackYear r' = Some y) /\
  (years' < y -> paybackYear r' = None).
Proof.
  intros p years' r r' y Hr Hr' Hy.
  rewrite project_eq in Hr, Hr'. inversion Hr; subst r. inversion Hr'; subst r'.
  clear Hr Hr'. cbn [paybackYear] in *.
  change (net_annual_savings_of (with_horizon p years')) with (net_annual_savings_of p).
  cbn [with_horizon consultingFee horizonYears].
  set (net := net_annual_savings_of p) in *. set (fee := consultingFee p) in *.
  pose proof (first_payback_spec net fee (horizonYears p)) as H1.
  pose proof (first_payback_spec net fee years') as H2.
  rewrite Hy in H1. destruct H1 as (Hy1 & Hry & Hmin).
  destruct (first_payback net fee years') as [y'|].
  - destruct H2 as (Hy2 & Hry' & Hmin'). split.
    + intros Hle. f_equal.
      destruct (Z.lt_trichotomy y' y) as [Hlt|[Heq|Hgt]]; [|assumption|].
      * rewrite (Hmin y') in Hry' by lia. discriminate.
      * rewrite (Hmin' y) in Hry by lia. discriminate.
    + intros Hlt. rewrite (Hmin y') in Hry' by lia. discriminate.
  - split; [|reflexivity]. intros Hle. rewrite (H2 y) in Hry by lia. discriminate.
Qed.

Lemma payback_year_is_stable_under_horizon_witness :
  exists r r',
    project average_estimate = Some r /\
    project (with_horizon average_estimate 3) = Some r' /\
    paybackYear r = Some 1 /\ paybackYear r' = Some 1.
Proof.
  do 2 eexists. split; [apply project_eq|]. split; [apply project_eq|].
  split; [reflexivity|].
  apply (payback_year_is_stable_under_horizon average_estimate 3 _ _ 1
           (project_eq average_estimate) (project_eq (with_horizon average_estimate 3))
           eq_refl).
  lia.
Defined.

(** ** The payback year against the series *)

Lemma same_value_fadd x x' n :
  same_value x x' -> same_value (fadd x n) (fadd x' n).
Proof.
  intros H.
  destruct x as [[|]| | |], x' as [[|]| | |]; cbn [same_value] in H;
    try discriminate; try (rewrite <- H; apply same_value_refl);
    try apply same_value_refl;
    destruct n as [[|]| | |]; cbn; auto.
Qed.

Lemma same_value_reaches x x' :
  same_value x x' -> fleb (of_int 0) x = fleb (of_int 0) x'.
Proof.
  intros H. destruct x as [[|]| | |], x' as [[|]| | |]; cbn [same_value] in H;
    try discriminate; try (rewrite <- H); reflexivity.
Qed.

Lemma zero_fee_running_sum net fee :
  is_zero fee = true ->
  forall y, (1 <= y)%nat ->
    same_value (running_sum net fee y) (total_after net fee y).
Proof.
  intros Hz y Hy. induction y as [|y IH]; [lia|].
  destruct (Nat.eq_dec y 0) as [->|Hne].
  - cbn [running_sum total_after Nat.eqb]. rewrite million_eq.
    destruct fee as [[|]| | |]; try discriminate;
      destruct net as [[|]|[|]| |[|] m e]; cbn; auto.
  - cbn [running_sum total_after].
    replace (Nat.eqb y 0) with false by (symmetry; apply Nat.eqb_neq; lia).
    apply same_value_fadd. apply IH. lia.
Qed.

Lemma in_py_range_1 H y : In y (py_range 1 (H + 1)) -> 1 <= y <= H.
Proof.
  rewrite py_range_from_1. intros Hin. apply in_map_iff in Hin as (i & <- & Hi).
  apply in_seq in Hi. lia.
Qed.

Lemma find_ext_in {A : Type} (f g : A -> bool) (l : list A) :
  (forall x, In x l -> f x = g x) -> find f l = find g l.
Proof.
  induction l as [|a l IH]; intros H; cbn [find]; [reflexivity|].
  rewrite (H a (or_introl eq_refl)). destruct (g a); [reflexivity|].
  apply IH. intros x Hx. apply H. right. exact Hx.
Qed.

(** X4. Without a consulting fee the two accumulations agree: the payback
    year is the first year whose cumulative savings are >= 0 (and
    "Not within horizon" when no year of the series is). *)
Theorem payback_without_fee_follows_series : forall p r,
  project p = Some r ->
  is_zero (consultingFee p) = true ->
  paybackYear r
  = find (fun y => fleb (of_int 0) (year_of (cumulativeSavingsByYear r) y))
         (py_range 1 (horizonYears p + 1)).
Proof.
  intros p r Hr Hz. rewrite project_eq in Hr. inversion Hr; subst r. clear Hr.
  cbn [paybackYear cumulativeSavingsByYear]. unfold first_payback.
  apply find_ext_in. intros y Hy. apply in_py_range_1 in Hy.
  rewrite year_of_savings by assumption. unfold reached.
  apply same_value_reaches. apply zero_fee_running_sum; [assumption|lia].
Qed.

Lemma payback_without_fee_follows_series_witness :
  exists r,
    project costly_channel = Some r /\
    paybackYear r
    = find (fun y => fleb (of_int 0) (year_of (cumulativeSavingsByYear r) y))
           (py_range 1 (horizonYears costly_channel + 1)).
Proof.
  eexists. split; [apply project_eq|].
  apply (payback_without_fee_follows_series costly_channel _
           (project_eq costly_channel)).
  reflexivity.
Defined.

(** ** Payback in the first year *)

Lemma good_neg_min_subnormal :
  good (S754_finite true 1 (-1074)) /\ rank (S754_finite true 1 (-1074)) = -1.
Proof. split; [split; reflexivity|reflexivity]. Qed.

(** The sign of a difference is the order of its operands: a subtraction
    never rounds a non-zero difference to zero. *)
Lemma fsub_sign x y :
  good x -> good y -> is_finite y = true ->
  good (fsub x y) /\ (0 <= rank (fsub x y) <-> rank y <= rank x).
Proof.
  intros Gx Gy Fy. pose proof huge_pos as Hh.
  destruct (is_finite x) eqn:Fx.
  - destruct (fsub_faithful x y Gx Gy Fx Fy) as [Gr Hr]. split; [assumption|]. split.
    + intros Hnn. destruct (Z_le_gt_dec (rank y) (rank x)) as [|Hgt]; [assumption|].
      destruct good_neg_min_subnormal as [Gm Rm].
      pose proof (proj1 (Hr _ Gm) ltac:(lia)). lia.
    + intros Hle. apply (Hr (S754_zero false) (good_zero false)). cbn [rank]. lia.
  - destruct Gx as [Wx Nx], Gy as [Wy Ny]. pose proof (rank_finite y Wy Fy).
    destruct x as [sx|[|]| |sx mx ex], y as [sy|sy| |sy my ey]; try discriminate;
      unfold fsub; cbn [SFsub]; (split; [split; reflexivity|]);
      cbn [rank cond_Zopp] in *; lia.
Qed.

Lemma rank_fadd_zero d :
  good d -> good (fadd (of_int 0) d) /\ rank (fadd (of_int 0) d) = rank d.
Proof.
  intros [Wd Nd]. destruct d as [[|]|s| |s m e]; try discriminate;
    (split; [split; [try exact Wd; reflexivity|reflexivity]|reflexivity]).
Qed.

Lemma reached_in_year_1 net fee :
  good net -> amount_ok fee = true ->
  reached net fee 1 = (rank (fdiv fee (of_int 1000000)) <=? rank net).
Proof.
  intros Gn Hf. apply amount_ok_inv in Hf as (Gf & Ff & Rf).
  destruct (millionth_nonneg fee Gf Ff Rf) as [Gq _].
  assert (Fq : is_finite (fdiv fee (of_int 1000000)) = true).
  { rewrite million_eq.
    apply (fdiv_by_constant fee 8589934592000000 (-33) (proj1 Gf) Ff eq_refl
             ltac:(cbn; lia)). }
  destruct (fsub_sign net _ Gn Gq Fq) as [Gd Hd].
  destruct (rank_fadd_zero _ Gd) as [Gr Rr].
  unfold reached. change (Z.to_nat 1) with 1%nat. cbn [running_sum Nat.eqb].
  rewrite fleb_rank by (try assumption; apply good_zero).
  rewrite Rr. change (rank (of_int 0)) with 0.
  destruct (Z.leb_spec 0 (rank (fsub net (fdiv fee (of_int 1000000)))));
    destruct (Z.leb_spec (rank (fdiv fee (of_int 1000000))) (rank net));
    try reflexivity; lia.
Qed.

Lemma payback_in_year_1 net fee H :
  1 <= H -> (first_payback net fee H = Some 1 <-> reached net fee 1 = true).
Proof.
  intros HH. pose proof (first_payback_spec net fee H) as Hs.
  destruct (first_payback net fee H) as [y|].
  - destruct Hs as (Hy & Hr & Hmin). split.
    + intros Heq. inversion Heq; subst y. exact Hr.
    + intros H1. f_equal. destruct (Z.eq_dec y 1) as [|Hne]; [assumption|].
      rewrite (Hmin 1) in H1 by lia. discriminate.
  - split; [discriminate|]. intros H1. rewrite (Hs 1) in H1 by lia. discriminate.
Qed.

(** X5. For valid parameters whose netAnnualSavings is not NaN, the
    dashboard reports payback in year 1 exactly when
    consultingFee / 1,000,000 <= netAnnualSavings. *)
Theorem payback_in_first_year_iff : forall p r,
  valid p = true -> project p = Some r ->
  is_nan (netAnnualSavings r) = false ->
  (paybackYear r = Some 1 <->
   fleb (fdiv (consultingFee p) (of_int 1000000)) (netAnnualSavings r) = true).
Proof.
  intros p r Hv Hr Hn. rewrite project_eq in Hr. inversion Hr; subst r. clear Hr.
  cbn [paybackYear netAnnualSavings] in *.
  pose proof (wf_net_annual_savings p Hv) as Wn.
  apply valid_inv in Hv as (_ & _ & _ & Hc & Hh).
  assert (Gn : good (net_annual_savings_of p)) by (split; assumption).
  rewrite payback_in_year_1 by lia.
  rewrite (reached_in_year_1 _ _ Gn Hc).
  apply amount_ok_inv in Hc as (Gf & Ff & Rf).
  destruct (millionth_nonneg _ Gf Ff Rf) as [Gq _].
  rewrite fleb_rank by assumption. reflexivity.
Qed.

Lemma payback_in_first_year_iff_witness :
  exists r,
    project average_estimate = Some r /\
    (paybackYear r = Some 1 <->
     fleb (fdiv (consultingFee average_estimate) (of_int 1000000))
          (netAnnualSavings r) = true).
Proof.
  eexists. split; [apply project_eq|].
  apply (payback_in_first_year_iff average_estimate _ eq_refl
           (project_eq average_estimate)).
  reflexivity.
Defined.

(** X6. For valid parameters with netAnnualSavings <= 0 the payback year
    is year 1 when netAnnualSavings and consultingFee / 1,000,000 are both
    zero, and there is none otherwise. *)
Theorem payback_with_nonpositive_savings : forall p r,
  valid p = true -> project p = Some r ->
  fleb (netAnnualSavings r) (of_int 0) = true ->
  paybackYear r
  = if is_zero (netAnnualSavings r)
       && is_zero (fdiv (consultingFee p) (of_int 1000000))
    then Some 1 else None.
Proof.
  intros p r Hv Hr Hnet. rewrite project_eq in Hr. inversion Hr; subst r. clear Hr.
  cbn [paybackYear netAnnualSavings] in *.
  pose proof (wf_net_annual_savings p Hv) as Wn.
  apply valid_inv in Hv as (_ & _ & _ & Hc & Hh).
  destruct (fleb_true_rank _ (of_int 0) Wn eq_refl Hnet) as (Gn & _ & Rn).
  change (rank (of_int 0)) with 0 in Rn.
  pose proof (reached_in_year_1 _ _ Gn Hc) as H1.
  apply amount_ok_inv in Hc as (Gf & Ff & Rf).
  destruct (millionth_nonneg _ Gf Ff Rf) as [Gq Rq].
  set (net := net_annual_savings_of p) in *.
  set (q := fdiv (consultingFee p) (of_int 1000000)) in *.
  destruct (is_zero net && is_zero q) eqn:Hz.
  - apply andb_true_iff in Hz as [Zn Zq].
    apply payback_in_year_1; [lia|]. rewrite H1. apply Z.leb_le.
    destruct net as [| | |]; try discriminate Zn.
    destruct q as [| | |]; try discriminate Zq.
    cbn [rank]. lia.
  - assert (Hs : rank net < 0 \/ 0 < rank q).
    { apply andb_false_iff in Hz as [Zn|Zq].
      - left. destruct (Z.eq_dec (rank net) 0) as [H0|]; [|lia].
        destruct (rank_zero_inv net Gn H0) as [s Hs]. rewrite Hs in Zn. discriminate.
      - right. destruct (Z.eq_dec (rank q) 0) as [H0|]; [|lia].
        destruct (rank_zero_inv q Gq H0) as [s Hs]. rewrite Hs in Zq. discriminate. }
    pose proof (first_payback_spec net (consultingFee p) (horizonYears p)) as Hspec.
    destruct (first_payback net (consultingFee p) (horizonYears p)) as [y|];
      [|reflexivity].
    destruct Hspec as (Hy & Hry & _). unfold reached in Hry.
    destruct (running_sum_negative net (consultingFee p) Gn Rn Gf Ff Rf Hs
                (Z.to_nat y) ltac:(lia)) as [Gy Ry].
    rewrite fleb_rank in Hry by (try assumption; apply good_zero).
    apply Z.leb_le in Hry. change (rank (of_int 0)) with 0 in Hry. lia.
Qed.

Lemma payback_with_nonpositive_savings_witness :
  exists r,
    project tiny_fee = Some r /\
    paybackYear r
    = if is_zero (netAnnualSavings r)
         && is_zero (fdiv (consultingFee tiny_fee) (of_int 1000000))
      then Some 1 else None.
Proof.
  eexists. split; [apply project_eq|].
  apply (payback_with_nonpositive_savings tiny_fee _ eq_refl (project_eq tiny_fee)).
  reflexivity.
Defined.

(** ** Equal rates and signs *)

Lemma fsub_diag x : is_finite x = true -> is_zero (fsub x x) = true.
Proof.
  destruct x as [[|]| | |s m e]; try discriminate; intros _; try reflexivity.
  unfold fsub. cbn [SFsub]. rewrite Z.sub_diag. reflexivity.
Qed.

(** X7. When the loss rate equals the transaction fee rate and the current
    loss is finite, netAnnualSavings is zero and every year of the series
    is minus the consulting fee. *)
Theorem equal_rates_break_even : forall p r,
  annualLossRatePercent p = transactionFeePercent p ->
  project p = Some r ->
  is_finite (annualCurrentLoss r) = true ->
  is_nan (consultingFee p) = false ->
  is_zero (netAnnualSavings r) = true /\
  forall y, 1 <= y <= horizonYears p ->
    same_value (year_of (cumulativeSavingsByYear r) y) (fneg (consultingFee p)).
Proof.
  intros p r Heq Hr Hfin Hfee. rewrite project_eq in Hr. inversion Hr; subst r. clear Hr.
  cbn [annualCurrentLoss netAnnualSavings cumulativeSavingsByYear] in *.
  assert (Hz : is_zero (net_annual_savings_of p) = true).
  { unfold net_annual_savings_of.
    replace (annual_blockchain_cost_of p) with (annual_current_loss_of p)
      by (unfold annual_current_loss_of, annual_blockchain_cost_of; rewrite Heq;
          reflexivity).
    apply fsub_diag. assumption. }
  split; [assumption|]. intros y Hy. rewrite year_of_savings by assumption.
  apply (total_after_zero_net _ _ Hz Hfee). lia.
Qed.

Lemma equal_rates_break_even_witness :
  exists r,
    project equal_rates = Some r /\
    is_zero (netAnnualSavings r) = true /\
    forall y, 1 <= y <= horizonYears equal_rates ->
      same_value (year_of (cumulativeSavingsByYear r) y)
                 (fneg (consultingFee equal_rates)).
Proof.
  eexists. split; [apply project_eq|].
  apply (equal_rates_break_even equal_rates _ eq_refl (project_eq equal_rates));
    reflexivity.
Defined.

Lemma py_sum_nonneg xs :
  Forall (fun x => good x /\ 0 <= rank x) xs ->
  good (py_sum xs) /\ 0 <= rank (py_sum xs).
Proof.
  unfold py_sum.
  assert (H0 : good (of_int 0) /\ 0 <= rank (of_int 0)).
  { split; [apply good_zero|]. change (rank (of_int 0)) with 0. lia. }
  revert H0. generalize (of_int 0).
  induction xs as [|x xs IH]; intros acc [Ga Ra] Hall; cbn [fold_left]; [auto|].
  inversion Hall as [|? ? [Gx Rx] Hrest]; subst. apply IH; [|assumption].
  pose proof huge_pos.
  destruct (fadd_nonneg acc x Ga Gx Rx ltac:(lia)). split; [assumption|lia].
Qed.

Lemma nonneg_shape x :
  good x -> 0 <= rank x ->
  (exists s, x = S754_zero s) \/ x = S754_infinity false \/
  (exists m e, x = S754_finite false m e).
Proof.
  pose proof huge_pos. intros [Wx Nx] Hr.
  destruct x as [s|[|]| |[|] m e]; try discriminate; cbn [rank cond_Zopp] in Hr;
    try lia; eauto.
  pose proof (ival_pos m e (wf_finite_min _ _ _ Wx)). lia.
Qed.

Lemma fmul_not_negative x y :
  good x -> good y -> 0 <= rank x -> 0 <= rank y -> is_finite y = true ->
  fltb (fmul x y) (of_int 0) = false /\
  (is_finite x = true -> fleb (of_int 0) (fmul x y) = true).
Proof.
  intros Gx Gy Rx Ry Fy.
  destruct (nonneg_shape x Gx Rx) as [[sx ->]|[->|(mx & ex & ->)]];
    destruct (nonneg_shape y Gy Ry) as [[sy ->]|[->|(my & ey & ->)]];
    try discriminate Fy; try (split; [reflexivity|]; intros; try discriminate; reflexivity).
  destruct (fmul_finite_rounded false mx ex false my ey (proj1 Gx) (proj1 Gy))
    as [E HE].
  cbn [xorb] in HE. pose proof (rounded_good _ _ _ HE) as Gr.
  pose proof (rounded_sign _ _ HE) as Rr.
  rewrite fltb_rank, fleb_rank by (try assumption; apply good_zero).
  change (rank (of_int 0)) with 0. split.
  - apply Z.ltb_ge. assumption.
  - intros _. apply Z.leb_le. assumption.
Qed.

Lemma rate_nonneg hi x :
  is_finite hi = true -> in_range (of_int 0) hi x = true ->
  good (fdiv x (of_int 100)) /\ 0 <= rank (fdiv x (of_int 100)) /\
  is_finite (fdiv x (of_int 100)) = true.
Proof.
  intros Fhi Hx. destruct (in_range_inv _ _ _ Hx eq_refl Fhi) as [Wx Fx].
  unfold in_range in Hx. apply andb_true_iff in Hx as [Hx _].
  apply andb_true_iff in Hx as [_ Hx].
  destruct (fleb_true_rank (of_int 0) x eq_refl Wx Hx) as (_ & _ & Rx).
  change (rank (of_int 0)) with 0 in Rx. rewrite hundred_eq.
  destruct (fdiv_by_constant x 7036874417766400 (-46) Wx Fx eq_refl ltac:(cbn; lia))
    as (G & F & Hs).
  auto.
Qed.

(** X8. For valid parameters the trapped total is >= 0, and neither the
    current loss nor the blockchain cost is ever negative; when the total
    is finite both are >= 0. *)
Theorem loss_and_cost_are_never_negative : forall p r,
  valid p = true -> project p = Some r ->
  fleb (of_int 0) (annualTrappedTotal r) = true /\
  fltb (annualCurrentLoss r) (of_int 0) = false /\
  fltb (annualBlockchainCost r) (of_int 0) = false /\
  (is_finite (annualTrappedTotal r) = true ->
   fleb (of_int 0) (annualCurrentLoss r) = true /\
   fleb (of_int 0) (annualBlockchainCost r) = true).
Proof.
  intros p r Hv Hr. rewrite project_eq in Hr. inversion Hr; subst r. clear Hr.
  cbn [annualTrappedTotal annualCurrentLoss annualBlockchainCost].
  apply valid_inv in Hv as (Hf & Ha & Hl & _ & _).
  assert (HT : good (annual_trapped_total (trappedFunds p)) /\
               0 <= rank (annual_trapped_total (trappedFunds p))).
  { unfold annual_trapped_total, values. apply py_sum_nonneg.
    apply Forall_forall. intros x Hx. apply in_map_iff in Hx as (kv & <- & Hin).
    rewrite forallb_forall in Ha. destruct (amount_ok_inv _ (Ha _ Hin)) as (G & _ & R).
    auto. }
  destruct HT as [GT RT].
  destruct (rate_nonneg (of_int 5) _ eq_refl Hf) as (Gf & Rf & Ff).
  destruct (rate_nonneg (of_int 25) _ eq_refl Hl) as (Gl & Rl & Fl).
  destruct (fmul_not_negative _ _ GT Gl RT Rl Fl) as [L1 L2].
  destruct (fmul_not_negative _ _ GT Gf RT Rf Ff) as [C1 C2].
  unfold annual_current_loss_of, annual_blockchain_cost_of.
  split; [|auto].
  rewrite fleb_rank by (try assumption; apply good_zero).
  apply Z.leb_le. assumption.
Qed.

Lemma loss_and_cost_are_never_negative_witness :
  exists r,
    project average_estimate = Some r /\
    fleb (of_int 0) (annualTrappedTotal r) = true /\
    fltb (annualCurrentLoss r) (of_int 0) = false /\
    fltb (annualBlockchainCost r) (of_int 0) = false /\
    (is_finite (annualTrappedTotal r) = true ->
     fleb (of_int 0) (annualCurrentLoss r) = true /\
     fleb (of_int 0) (annualBlockchainCost r) = true).
Proof.
  eexists. split; [apply project_eq|].
  apply (loss_and_cost_are_never_negative average_estimate _ eq_refl
           (project_eq average_estimate)).
Defined.

(** ** The payback cell *)

(** X9. The payback cell of the summary shows "Not within horizon" when
    there is no payback year, and otherwise a decimal numeral that reads
    back as the payback year, a year of the horizon. *)
Theorem payback_cell_reads_back : forall p r,
  project p = Some r ->
  (paybackYear r = None /\
   payback_display (paybackYear r) = "Not within horizon"%string) \/
  (exists y,
     paybackYear r = Some y /\ 1 <= y <= horizonYears p /\
     option_map Z.of_int (NilZero.int_of_string (payback_display (paybackYear r)))
     = Some y).
Proof.
  intros p r Hr. rewrite project_eq in Hr. inversion Hr; subst r. clear Hr.
  cbn [paybackYear].
  pose proof (first_payback_spec (net_annual_savings_of p) (consultingFee p)
                (horizonYears p)) as Hs.
  destruct (first_payback (net_annual_savings_of p) (consultingFee p) (horizonYears p))
    as [y|]; [right|left; split; reflexivity].
  destruct Hs as (Hy & _). exists y. split; [reflexivity|]. split; [exact Hy|].
  cbn [payback_display]. destruct (Z.eqb_spec y 0) as [|_]; [lia|].
  rewrite NilZero.isi.
  - cbn [option_map]. f_equal. apply DecimalZ.of_to.
  - destruct y as [|q|q]; try lia. cbn [Z.to_int]. intros H. inversion H as [Hq].
    exact (Unsigned.to_uint_nonnil q Hq).
  - destruct y as [|q|q]; try lia. cbn [Z.to_int]. discriminate.
Qed.

Lemma payback_cell_reads_back_witness :
  exists r,
    project average_estimate = Some r /\
    option_map Z.of_int (NilZero.int_of_string (payback_display (paybackYear r)))
    = Some 1.
Proof.
  eexists. split; [apply project_eq|].
  destruct (payback_cell_reads_back average_estimate _ (project_eq average_estimate))
    as [[Hn _]|(y & Hy & _ & Hread)].
  - vm_compute in Hn. discriminate Hn.
  - rewrite Hread. vm_compute in Hy. exact (eq_sym Hy).
Defined.

(** ** The sidebar *)

Lemma trapped_funds_inputs_eq w scenario_params :
  unique_keys (annual_trapped_funds scenario_params) = true ->
  trapped_funds_inputs w scenario_params
  = map (fun kv =>
           (fst kv,
            number_input_float w (fst kv ++ " ($)") (of_int 0) (snd kv) (of_int 10000)))
        (annual_trapped_funds scenario_params).
Proof.
  intros Hf. apply unique_keys_NoDup in Hf. unfold trapped_funds_inputs.
  exact (fill_by_key
           (fun k v => number_input_float w (k ++ " ($)") (of_int 0) v (of_int 10000))
           (annual_trapped_funds scenario_params) [] Hf).
Qed.

Lemma transactions_inputs_eq w scenario_params :
  unique_keys (transactions_per_year scenario_params) = true ->
  transactions_inputs w scenario_params
  = map (fun kv =>
           (fst kv,
            number_input_int w ("Number of Transactions per Year for " ++ fst kv)
              1 100 (snd kv) 1))
        (transactions_per_year scenario_params).
Proof.
  intros Ht. apply unique_keys_NoDup in Ht. unfold transactions_inputs.
  exact (fill_by_key
           (fun k v => number_input_int w
                         ("Number of Transactions per Year for " ++ k) 1 100 v 1)
           (transactions_per_year scenario_params) [] Ht).
Qed.

Lemma keys_map_values {V W : Type} (f : string * V -> W) (d : list (string * V)) :
  keys (map (fun kv => (fst kv, f kv)) d) = keys d.
Proof. unfold keys. rewrite map_map. reflexivity. Qed.

(** X10. The two sidebar loops build dicts with exactly the countries of
    the preset, in the preset's order, each with the value its own number
    input returned. *)
Theorem sidebar_loops_keep_countries : forall w scenario_params,
  unique_keys (annual_trapped_funds scenario_params) = true ->
  unique_keys (transactions_per_year scenario_params) = true ->
  trapped_funds_inputs w scenario_params
  = map (fun kv =>
           (fst kv,
            number_input_float w (fst kv ++ " ($)") (of_int 0) (snd kv) (of_int 10000)))
        (annual_trapped_funds scenario_params) /\
  transactions_inputs w scenario_params
  = map (fun kv =>
           (fst kv,
            number_input_int w ("Number of Transactions per Year for " ++ fst kv)
              1 100 (snd kv) 1))
        (transactions_per_year scenario_params) /\
  keys (trapped_funds_inputs w scenario_params)
  = keys (annual_trapped_funds scenario_params) /\
  keys (transactions_inputs w scenario_params)
  = keys (transactions_per_year scenario_params).
Proof.
  intros w sp Hf Ht.
  pose proof (trapped_funds_inputs_eq w sp Hf) as E1.
  pose proof (transactions_inputs_eq w sp Ht) as E2.
  split; [exact E1|]. split; [exact E2|].
  rewrite E1, E2. split; apply keys_map_values.
Qed.

Lemma sidebar_loops_keep_countries_witness :
  keys (trapped_funds_inputs untouched
          {| transaction_fee_percent := of_int 3;
             annual_trapped_funds := default_trapped_funds;
             annual_loss_rate_percent := of_int 10;
             transactions_per_year := default_transactions |})
  = ["Bangladesh"%string; "Pakistan"%string; "Others"%string].
Proof.
  apply (sidebar_loops_keep_countries untouched
           {| transaction_fee_percent := of_int 3;
              annual_trapped_funds := default_trapped_funds;
              annual_loss_rate_percent := of_int 10;
              transactions_per_year := default_transactions |});
    reflexivity.
Defined.

Lemma untouched_in_range : widgets_in_range untouched.
Proof.
  constructor; cbn [untouched selectbox slider_float slider_int number_input_float
                    number_input_int]; auto.
  intros _ options Hne. destruct options as [|o options]; [congruence|].
  left. reflexivity.
Qed.

Lemma preset_of_selected w :
  widgets_in_range w ->
  exists name scenario_params,
    selectbox w "Select Scenario" scenarios = name /\
    In (name, scenario_params) default_params /\
    dict_getitem default_params name = Some scenario_params.
Proof.
  intros Hw.
  pose proof (selectbox_in_options w Hw "Select Scenario" scenarios
                ltac:(discriminate)) as Hin.
  destruct Hin as [H|[H|[H|[]]]]; rewrite <- H; eexists; eexists;
    (split; [reflexivity|]); (split; [|reflexivity]); cbn; auto.
Qed.

Lemma forallb_map {A B : Type} (f : A -> B) (P : B -> bool) (l : list A) :
  forallb P (map f l) = forallb (fun x => P (f x)) l.
Proof. induction l as [|a l IH]; cbn; [reflexivity|]. rewrite IH. reflexivity. Qed.

Lemma valid_intro p :
  in_range (of_int 0) (of_int 5) (transactionFeePercent p) = true ->
  forallb (fun kv => amount_ok (snd kv)) (trappedFunds p) = true ->
  unique_keys (trappedFunds p) = true ->
  in_range (of_int 0) (of_int 25) (annualLossRatePercent p) = true ->
  amount_ok (consultingFee p) = true ->
  forallb (fun kv => (1 <=? snd kv) && (snd kv <=? 100)) (transactionsPerYear p) = true ->
  unique_keys (transactionsPerYear p) = true ->
  1 <= horizonYears p <= 20 ->
  valid p = true.
Proof.
  intros H1 H2 H3 H4 H5 H6 H7 [H8 H9]. unfold valid.
  rewrite H1, H2, H3, H4, H5, H6, H7. cbn [andb].
  apply andb_true_iff. split; apply Z.leb_le; assumption.
Qed.

Lemma unique_keys_same_keys {V W : Type} (d : list (string * V)) (d' : list (string * W)) :
  keys d = keys d' -> unique_keys d' = true -> unique_keys d = true.
Proof.
  revert d'. induction d as [|[k v] d IH]; intros [|[k' v'] d'];
    cbn [keys map fst unique_keys]; try discriminate; [reflexivity|].
  intros Heq Hu. inversion Heq as [[Hk Hd]]. subst k'.
  apply andb_true_iff in Hu as [Hu1 Hu2]. apply andb_true_iff. split.
  - rewrite <- Hu1. f_equal. clear - Hd. revert d' Hd.
    induction d as [|[a b] d IH2]; intros [|[a' b'] d'];
      cbn [map fst existsb]; try discriminate; [reflexivity|].
    intros H. inversion H; subst. f_equal. apply IH2. assumption.
  - apply (IH d'); assumption.
Qed.

Lemma sidebar_horizon w :
  widgets_in_range w ->
  exists p, sidebar w = Some p /\ 1 <= horizonYears p <= 20.
Proof.
  intros Hw. destruct (preset_of_selected w Hw) as (name & sp & Hsel & _ & Hget).
  unfold sidebar. rewrite Hsel, Hget. cbn [bind]. eexists. split; [reflexivity|].
  cbn [horizonYears].
  apply (slider_int_in_range w Hw "Select Time Horizon (Years)" 1 20 10). lia.
Qed.

(** X11. Every scenario the select box can return is a key of
    [default_params] (line 68 raises no KeyError), and whenever the widgets
    keep their ranges the parameters read from the sidebar are valid and
    list the same countries for trapped funds and for transactions. *)
Theorem sidebar_gives_valid_parameters : forall w,
  widgets_in_range w ->
  exists p,
    sidebar w = Some p /\
    valid p = true /\
    keys (trappedFunds p) = keys (transactionsPerYear p).
Proof.
  intros w Hw.
  destruct (preset_of_selected w Hw) as (name & sp & Hsel & Hin & Hget).
  unfold sidebar. rewrite Hsel, Hget. cbn [bind]. eexists. split; [reflexivity|].
  assert (Hpre : unique_keys (annual_trapped_funds sp) = true /\
                 unique_keys (transactions_per_year sp) = true /\
                 keys (annual_trapped_funds sp) = keys (transactions_per_year sp) /\
                 in_range (of_int 0) (of_int 5) (transaction_fee_percent sp) = true /\
                 in_range (of_int 0) (of_int 25) (annual_loss_rate_percent sp) = true /\
                 forallb (fun kv => wf (snd kv) && is_finite (snd kv)
                                    && fleb (of_int 0) (snd kv))
                   (annual_trapped_funds sp) = true /\
                 forallb (fun kv => (1 <=? snd kv) && (snd kv <=? 100))
                   (transactions_per_year sp) = true).
  { destruct Hin as [H|[H|[H|[]]]]; inversion H; subst; repeat split; reflexivity. }
  destruct Hpre as (Uf & Ut & Hk & Rf & Rl & Af & At).
  pose proof (trapped_funds_inputs_eq w sp Uf) as E1.
  pose proof (transactions_inputs_eq w sp Ut) as E2.
  assert (K1 : keys (trapped_funds_inputs w sp) = keys (annual_trapped_funds sp))
    by (rewrite E1; apply keys_map_values).
  assert (K2 : keys (transactions_inputs w sp) = keys (transactions_per_year sp))
    by (rewrite E2; apply keys_map_values).
  split.
  - apply valid_intro;
      cbn [transactionFeePercent trappedFunds annualLossRatePercent consultingFee
           transactionsPerYear horizonYears].
    + apply (slider_float_in_range w Hw). exact Rf.
    + rewrite E1, forallb_map. cbn [snd]. rewrite forallb_forall in *.
      intros kv Hkv. unfold amount_ok.
      apply (number_input_float_in_range w Hw). apply Af. exact Hkv.
    + apply (unique_keys_same_keys _ _ K1 Uf).
    + apply (slider_float_in_range w Hw). exact Rl.
    + unfold amount_ok. apply (number_input_float_in_range w Hw). reflexivity.
    + rewrite E2, forallb_map. cbn [snd]. rewrite forallb_forall in *.
      intros kv Hkv. specialize (At kv Hkv). apply andb_true_iff in At as [A1 A2].
      apply Z.leb_le in A1, A2.
      pose proof (number_input_int_in_range w Hw
                    ("Number of Transactions per Year for " ++ fst kv)
                    1 100 (snd kv) 1 ltac:(lia)) as Hr.
      apply andb_true_iff. split; apply Z.leb_le; lia.
    + apply (unique_keys_same_keys _ _ K2 Ut).
    + apply (slider_int_in_range w Hw "Select Time Horizon (Years)" 1 20 10). lia.
  - cbn [trappedFunds transactionsPerYear]. rewrite K1, K2. exact Hk.
Qed.

Lemma sidebar_gives_valid_parameters_witness :
  exists p, sidebar untouched = Some p /\ valid p = true /\
            keys (trappedFunds p) = keys (transactionsPerYear p).
Proof.
  apply (sidebar_gives_valid_parameters untouched). exact untouched_in_range.
Defined.

(** ** The tables *)

Lemma py_range_length lo hi : List.length (py_range lo hi) = Z.to_nat (hi - lo).
Proof. unfold py_range. rewrite length_map, length_seq. reflexivity. Qed.

Lemma py_range_nth H y :
  1 <= y <= H -> nth_error (py_range 1 (H + 1)) (Z.to_nat (y - 1)) = Some y.
Proof.
  intros Hy. rewrite py_range_from_1.
  rewrite nth_error_map.
  rewrite (nth_error_nth' _ 0%nat) by (rewrite length_seq; lia).
  rewrite seq_nth by lia. cbn [option_map]. f_equal. lia.
Qed.

Lemma two_columns n1 c1 n2 c2 :
  List.length c2 = List.length c1 ->
  data_frame [(n1, c1); (n2, c2)] = Some [(n1, c1); (n2, c2)].
Proof.
  intros H. cbn [data_frame forallb snd]. rewrite H, Nat.eqb_refl. reflexivity.
Qed.

(** X12. The scenario table always builds (its two columns have one
    length, whatever the two dicts hold), and every row pairs a country
    with its own figure: first the trapped funds, then the transaction
    counts, in the order of the dicts. *)
Theorem scenario_table_rows_are_aligned : forall fmt p,
  exists df,
    scenario_df fmt p = Some df /\
    (forall i country amount,
       nth_error (trappedFunds p) i = Some (country, amount) ->
       row df (3 + i) = [Some (CStr country); Some (CStr (money fmt amount))]) /\
    (forall i country txn,
       nth_error (transactionsPerYear p) i = Some (country, txn) ->
       row df (3 + List.length (trappedFunds p) + i)
       = [Some (CStr country);
          Some (CStr (str_int txn ++ " transactions/year"))]).
Proof.
  intros fmt p. eexists. split.
  - unfold scenario_df. apply two_columns.
    unfold keys, values. rewrite !length_app, !length_map. reflexivity.
  - unfold row, keys, values. cbn [map snd]. split.
    + intros i country amount Hi.
      assert (Hlt : (i < List.length (trappedFunds p))%nat)
        by (apply nth_error_Some; rewrite Hi; discriminate).
      change (3 + i)%nat with (S (S (S i))). cbn [app nth_error].
      rewrite !nth_error_app1 by (rewrite !length_map; exact Hlt).
      rewrite !nth_error_map, Hi. reflexivity.
    + intros i country txn Hi.
      assert (Hlt : (i < List.length (transactionsPerYear p))%nat)
        by (apply nth_error_Some; rewrite Hi; discriminate).
      change (3 + List.length (trappedFunds p) + i)%nat
        with (S (S (S (List.length (trappedFunds p) + i)))).
      cbn [app nth_error].
      rewrite !nth_error_app2 by (rewrite !length_map; lia).
      rewrite !length_map.
      replace (List.length (trappedFunds p) + i - List.length (trappedFunds p))%nat
        with i by lia.
      rewrite !nth_error_map, Hi. reflexivity.
Qed.

Lemma yearly_rows fmt net fee years :
  cumulative_df fmt years (savings_loop net fee years)
  = Some [("Year"%string, map CInt (py_range 1 (years + 1)));
          ("Cumulative Savings ($)"%string,
           map (fun value => CStr (money fmt value)) (savings_loop net fee years))] /\
  List.length (py_range 1 (years + 1)) = List.length (savings_loop net fee years) /\
  forall y, 1 <= y <= years ->
    nth_error (py_range 1 (years + 1)) (Z.to_nat (y - 1)) = Some y /\
    nth_error (savings_loop net fee years) (Z.to_nat (y - 1))
    = Some (year_of (savings_loop net fee years) y).
Proof.
  assert (Hlen : List.length (py_range 1 (years + 1))
                 = List.length (savings_loop net fee years)).
  { rewrite py_range_length, savings_loop_closed, length_map, length_seq. f_equal. lia. }
  split; [|split; [exact Hlen|]].
  - unfold cumulative_df. apply two_columns. rewrite !length_map. auto.
  - intros y Hy. split; [apply py_range_nth; assumption|].
    unfold year_of. apply nth_error_nth'. rewrite <- Hlen, py_range_length. lia.
Qed.

Lemma nth_error_combine {A B : Type} (xs : list A) (ys : list B) n x y :
  nth_error xs n = Some x -> nth_error ys n = Some y ->
  nth_error (combine xs ys) n = Some (x, y).
Proof.
  revert xs ys. induction n as [|n IH]; intros [|a xs] [|b ys];
    cbn [nth_error combine]; try discriminate.
  - intros H1 H2. inversion H1; inversion H2; subst. reflexivity.
  - apply IH.
Qed.

(** X13. The yearly table and the chart always build from the series of
    [calculate_savings]: years and values have one length, and the row and
    the point of year [y] carry the cumulative value of year [y]. *)
Theorem yearly_table_rows_are_aligned :
  forall fmt transaction_fee trapped_funds loss_rate consulting_fee years,
  exists cs net l c df,
    calculate_savings transaction_fee trapped_funds loss_rate consulting_fee years
      = Some (cs, net, l, c) /\
    cumulative_df fmt years cs = Some df /\
    List.length (py_range 1 (years + 1)) = List.length cs /\
    forall y, 1 <= y <= years ->
      row df (Z.to_nat (y - 1))
      = [Some (CInt y); Some (CStr (money fmt (year_of cs y)))] /\
      nth_error (combine (py_range 1 (years + 1)) cs) (Z.to_nat (y - 1))
      = Some (y, year_of cs y).
Proof.
  intros fmt tf funds lr cf years.
  pose (net := fsub (fmul (annual_trapped_total funds) (fdiv lr (of_int 100)))
                    (fmul (annual_trapped_total funds) (fdiv tf (of_int 100)))).
  destruct (yearly_rows fmt net cf years) as (Hdf & Hlen & Hrows).
  exists (savings_loop net cf years), net. do 3 eexists.
  split; [reflexivity|]. split; [exact Hdf|]. split; [exact Hlen|].
  intros y Hy. destruct (Hrows y Hy) as [H1 H2]. split.
  - unfold row. cbn [map snd]. rewrite !nth_error_map, H1, H2. reflexivity.
  - apply nth_error_combine; assumption.
Qed.

(** ** The whole run *)

(** X14. Whenever the widgets keep their ranges the script runs to its
    end: no KeyError on the preset, no ZeroDivisionError, no IndexError on
    [cumulative_savings[-1]] and no ValueError from a table; the chart then
    has one value per year. *)
Theorem script_raises_nothing : forall w fmt,
  widgets_in_range w ->
  exists d,
    script w fmt = Some d /\
    List.length (chart_x d) = List.length (chart_y d) /\
    (exists p, sidebar w = Some p /\
               Z.of_nat (List.length (chart_y d)) = horizonYears p).
Proof.
  intros w fmt Hw.
  destruct (sidebar_horizon w Hw) as (p & Hp & Hh).
  unfold script. rewrite Hp. cbn [bind]. rewrite project_eq. cbn [bind].
  destruct (total_savings_over_period_defined p ltac:(lia)) as [total Htot].
  rewrite Htot. cbn [bind].
  unfold summary_df. rewrite two_columns by reflexivity. cbn [bind].
  unfold scenario_df.
  rewrite two_columns
    by (unfold keys, values; rewrite !length_app, !length_map; reflexivity).
  cbn [bind cumulativeSavingsByYear].
  destruct (yearly_rows fmt (net_annual_savings_of p) (consultingFee p) (horizonYears p))
    as (Hdf & Hlen & _).
  rewrite Hdf. cbn [bind]. eexists. split; [reflexivity|].
  cbn [chart_x chart_y]. split; [exact Hlen|].
  exists p. split; [reflexivity|]. apply savings_loop_length. lia.
Qed.

Lemma script_raises_nothing_witness :
  exists d,
    script untouched {| money := fun _ => EmptyString; plain := fun _ => EmptyString |}
      = Some d /\
    List.length (chart_x d) = List.length (chart_y d) /\
    (exists p, sidebar untouched = Some p /\
               Z.of_nat (List.length (chart_y d)) = horizonYears p).
Proof.
  apply (script_raises_nothing untouched). exact untouched_in_range.
Defined.
